(** * xappy: the Query algebra of [xappy/query.py]

    A shallow embedding of the [Query] class: construction, metadata merge,
    associative and pairwise composition, weight scaling and normalisation,
    facet annotation, and the serialised ("evalable") text kept alongside.

    The search engine ([xapian]), the search connection and the Python
    values a query only passes through (numbers, references, range bounds)
    are collaborators of the module; they are the fields of [Externals]. *)

From Stdlib Require Import QArith.
From stdpp Require Import base option list strings gmap pretty.

Local Set Warnings "-register-all".

Local Open Scope string_scope.
Local Open Scope list_scope.

(** ** Python exceptions and results *)

(** [xapian.Query.OP_*]: the operators [query.py] names. *)
Inductive operator :=
  | OP_AND | OP_OR | OP_AND_NOT | OP_XOR | OP_AND_MAYBE | OP_FILTER
  | OP_SCALE_WEIGHT.

Global Instance operator_eq_dec : EqDecision operator.
Proof. solve_decision. Defined.

Inductive exception :=
  | ValueError (msg : string)
  | TypeError (msg : string)
  | KeyError (key : operator).

Inductive result (A : Type) :=
  | Ok (a : A)
  | Raise (e : exception).
Global Arguments Ok {A} a.
Global Arguments Raise {A} e.

(** Sequencing statements that may raise, in stdpp's monad notation. *)
Global Instance result_ret : MRet result := λ A a, Ok a.
Global Instance result_bind : MBind result := λ A B k m,
  match m with
  | Ok a => k a
  | Raise e => Raise e
  end.

(** A monadic left fold: a [for] loop whose body may raise. *)
Fixpoint for_each {A S} (body : S → A → result S) (s : S) (l : list A)
  : result S :=
  match l with
  | [] => Ok s
  | x :: l => s' ← body s x; for_each body s' l
  end.

(** The value of a special method that may decline its operand. *)
Inductive or_NotImplemented (A : Type) :=
  | Value (a : A)
  | NotImplemented.
Global Arguments Value {A} a.
Global Arguments NotImplemented {A}.

(** The three [ValueError]s of [query.py]. *)
Definition CompositionError : exception :=
  ValueError "Can't compose this query with other queries.".
Definition ConnectionMismatchError : exception :=
  ValueError "Queries are not from the same connection".
Definition NoConnectionError : exception :=
  ValueError "This Query is not associated with a SearchConnection".

(** ** The collaborators *)

Class Externals := {
  (** Python numbers: weights and multipliers. *)
  number : Type;
  (** [xapian.Query]: the engine's compiled expression. *)
  xapian_Query : Type;
  (** [xapian.Query()] *)
  xapian_Query_new : xapian_Query;
  (** [xapian.Query(operator, xapqs)] *)
  xapian_Query_multi : operator → list xapian_Query → xapian_Query;
  (** [xapian.Query(operator, left, right)] *)
  xapian_Query_pair : operator → xapian_Query → xapian_Query → xapian_Query;
  (** [xapian.Query(OP_SCALE_WEIGHT, query, multiplier)] for a numeric
      [multiplier]; on any other object the binding raises [TypeError]. *)
  xapian_Query_scale : xapian_Query → number → xapian_Query;
  (** [xapian.Query.empty] *)
  xapian_Query_empty : xapian_Query → bool;

  (** The search connection; equality is object identity ([is]). *)
  SearchConnection : Type;
  SearchConnection_is :: EqDecision SearchConnection;

  (** Arithmetic on numbers: the literal [0] returned for an empty query *)
  number_0 : number;
  (** [x > 0.] *)
  number_gt_0 : number → bool;
  (** [x == 1.0] *)
  number_eq_1 : number → bool;
  (** [x / y] *)
  number_div : number → number → number;
  (** [repr(x)] on a number *)
  repr_number : number → string;
  (** [repr(s)] on a [str] *)
  repr_str : string → string;

  (** Objects a query keeps alive ([_refs]). *)
  pyref : Type;
  (** The bounds of a range; equality is [==]. *)
  rangeval : Type;
  rangeval_eq :: EqDecision rangeval;
}.

(** [', '.join] and friends. *)
Definition join (sep : string) (l : list string) : string :=
  String.concat sep l.

(** [repr] of [None] or an [int]. *)
Definition repr_int_or_None (x : option Z) : string :=
  match x with
  | None => "None"
  | Some z => pretty z
  end.

(** [repr] of a tuple of [str]. *)
Definition repr_tuple (repr_elt : string → string) (l : list string) : string :=
  match l with
  | [x] => "(" +:+ repr_elt x +:+ ",)"
  | _ => "(" +:+ join ", " (repr_elt <$> l) +:+ ")"
  end.

(** The value of [search_params['facets']]: [{'invert': b, 'fields': {...}}],
    each field mapped to [(checkatleast, desired_num_of_categories)]. The
    dictionary is stored with its ['fields'] entry in every query that
    [get_facets] or [get_facets_except] returns. *)
Record facets_spec := {
  invert : bool;
  fields : gmap string (option Z * option Z);
}.

Module Query.
Section with_externals.
Context `{Externals}.

(** A range is the tuple [(fieldname, start, end)]. *)
Definition range : Type := string * rangeval * rangeval.

(** ** The Query object

    The fields are the private attributes of the class, under their Python
    names. [__cacheinfo] is the pair [(_queryid, self)]; only its first
    component is data, the second being the object itself. [__subqs] holds
    the operands of a composite as given: raw engine queries or Query
    objects. *)
Inductive t := mk {
  __query : xapian_Query;
  __refs : list pyref;
  __conn : option SearchConnection;
  __ranges : list range;
  __serialised : option string;
  __cacheinfo : option Z;
  __search_params : gmap string facets_spec;
  __op : option operator;
  __subqs : option (list (xapian_Query + t));
}.

(** What a caller may pass where a query is expected. *)
Abbreviation operand := (xapian_Query + t)%type.
(** [isinstance(q, xapian.Query)] *)
Definition xapian_q (x : xapian_Query) : operand := inl x.
(** [isinstance(q, Query)] *)
Definition xappy_q (q : t) : operand := inr q.

(** Attribute assignment [self.__x = v]. *)
Definition set_query (x : xapian_Query) (q : t) : t :=
  mk x (__refs q) (__conn q) (__ranges q) (__serialised q) (__cacheinfo q)
     (__search_params q) (__op q) (__subqs q).
Definition set_refs (x : list pyref) (q : t) : t :=
  mk (__query q) x (__conn q) (__ranges q) (__serialised q) (__cacheinfo q)
     (__search_params q) (__op q) (__subqs q).
Definition set_conn (x : option SearchConnection) (q : t) : t :=
  mk (__query q) (__refs q) x (__ranges q) (__serialised q) (__cacheinfo q)
     (__search_params q) (__op q) (__subqs q).
Definition set_ranges (x : list range) (q : t) : t :=
  mk (__query q) (__refs q) (__conn q) x (__serialised q) (__cacheinfo q)
     (__search_params q) (__op q) (__subqs q).
Definition _set_serialised (q : t) (serialised : option string) : t :=
  mk (__query q) (__refs q) (__conn q) (__ranges q) serialised (__cacheinfo q)
     (__search_params q) (__op q) (__subqs q).
Definition set_search_params (x : gmap string facets_spec) (q : t) : t :=
  mk (__query q) (__refs q) (__conn q) (__ranges q) (__serialised q)
     (__cacheinfo q) x (__op q) (__subqs q).
Definition set_op_subqs (op : operator) (subqs : list operand) (q : t) : t :=
  mk (__query q) (__refs q) (__conn q) (__ranges q) (__serialised q)
     (__cacheinfo q) (__search_params q) (Some op) (Some subqs).

(** [empty] *)
Definition empty (self : t) : bool := xapian_Query_empty (__query self).

(** [is_composable] *)
Definition is_composable (self : t) : bool :=
  if decide (size (__search_params self) ≠ 0) then false else true.

(** [_check_composable] *)
Definition _check_composable (self : t) : result unit :=
  if negb (is_composable self) then Raise CompositionError else Ok tt.

(** The loop of [__merge_params] over [query.__ranges]. *)
Definition merge_ranges (self_ranges query_ranges : list range) : list range :=
  foldl (λ acc range, if decide (range ∈ acc) then acc else acc ++ [range])
        self_ranges query_ranges.

(** [__merge_params]: the object is updated in place; here the updated
    object is returned. *)
Definition __merge_params (self query : t) : result t :=
  conn ← (if decide (__conn self ≠ __conn query) then
            match __conn self with
            | None => Ok (__conn query)
            | Some _ =>
                match __conn query with
                | Some _ => Raise ConnectionMismatchError
                | None => Ok (__conn self)
                end
            end
          else Ok (__conn self));
  Ok (set_ranges (merge_ranges (__ranges self) (__ranges query))
        (set_refs (__refs self ++ __refs query)
           (set_conn conn self))).

(** [__init__]. [query] is [None], a [xapian.Query] or a [Query]. *)
Definition __init__ (query : option operand) (_refs : option (list pyref))
    (_conn : option SearchConnection) (_ranges : option (list range))
    (_serialised : option string) (_queryid : option Z) : result t :=
  let _refs := default [] _refs in
  let _ranges := default [] _ranges in
  let '(query, _serialised) :=
    match query with
    | None => (xapian_q xapian_Query_new,
               Some (default "Query()" _serialised))
    | Some query => (query, _serialised)
    end in
  match query with
  | inl query =>
      Ok (mk query _refs _conn _ranges _serialised _queryid ∅ None None)
  | inr query =>
      __merge_params
        (mk (__query query) _refs _conn _ranges
            (match _serialised with
             | None => __serialised query
             | Some s => Some s
             end)
            _queryid (__search_params query) None None)
        query
  end.

(** [Query()] *)
Definition Query_ : result t := __init__ None None None None None None.
(** [Query(q)] *)
Definition Query_of (q : operand) : result t :=
  __init__ (Some q) None None None None None.

(** The object [Query()] builds. *)
Definition fresh : t :=
  mk xapian_Query_new [] None [] (Some "Query()") None ∅ None None.

(** The object [Query(q)] builds from a Query [q]: a copy without
    operator, operands or query id, its ranges rid of repetitions. *)
Definition copy_of (q : t) : t :=
  mk (__query q) (__refs q) (__conn q) (merge_ranges [] (__ranges q))
     (__serialised q) None (__search_params q) None None.

(** ** Associative composition *)

(** [compose], first loop: each Query operand is checked; a raw engine
    query has no [_check_composable]. *)
Definition check_queries (queries : list operand) : result unit :=
  for_each (λ _ q, match q with
                   | inl _ => Ok tt
                   | inr q => _check_composable q
                   end) tt queries.

(** What one operand contributes to [flattened_queries]. *)
Definition flatten_one (operator : operator) (q : operand)
  : result (list operand) :=
  match q with
  | inl _ => Ok [q]
  | inr q' =>
      if decide (__op q' = Some operator) then
        match __subqs q' with
        | Some subqs => Ok subqs
        | None => Raise (TypeError "'NoneType' object is not iterable")
        end
      else Ok [q]
  end.

(** [compose], second loop. *)
Definition flatten (operator : operator) (queries : list operand)
  : result (list operand) :=
  for_each (λ flattened_queries q,
              qs ← flatten_one operator q; Ok (flattened_queries ++ qs))
           [] queries.

(** [compose], third loop: the state is [(xapqs, serialisedqs, result)]. *)
Definition compose_step
    (st : list xapian_Query * option (list string) * t) (q : operand)
  : result (list xapian_Query * option (list string) * t) :=
  let '(xapqs, serialisedqs, result) := st in
  match q with
  | inl q => Ok (xapqs ++ [q], None, result)
  | inr q =>
      let serialisedqs :=
        match serialisedqs with
        | Some serialisedqs =>
            match __serialised q with
            | None => None
            | Some serialisedq => Some (serialisedqs ++ [serialisedq])
            end
        | None => None
        end in
      result ← __merge_params result q;
      Ok (xapqs ++ [__query q], serialisedqs, result)
  end.

(** The serialised texts [compose] collects from flattened operands: those
    of the operands in order, or [None] once an operand is a raw engine
    query or a Query without text. *)
Definition text_of (q : operand) : option string :=
  match q with
  | inl _ => None
  | inr q => __serialised q
  end.
Definition known_texts (flattened_queries : list operand)
  : option (list string) :=
  mapM text_of flattened_queries.

(** The connection an operand brings to the merge: a raw engine query
    brings none. *)
Definition conn_of (q : operand) : option SearchConnection :=
  match q with
  | inl _ => None
  | inr q => __conn q
  end.

(** No two different connections among [conns]. *)
Definition one_connection (conns : list (option SearchConnection)) : Prop :=
  ∀ k k', Some k ∈ conns → Some k' ∈ conns → k = k'.

(** The two dictionaries indexed by [operator] in [compose]. *)
Definition infix_str (operator : operator) : result string :=
  match operator with
  | OP_AND => Ok " & "
  | OP_OR => Ok " | "
  | _ => Raise (KeyError operator)
  end.
Definition operator_str (operator : operator) : result string :=
  match operator with
  | OP_AND => Ok "Query.OP_AND"
  | OP_OR => Ok "Query.OP_OR"
  | _ => Raise (KeyError operator)
  end.

(** The serialised text of a composite from those of its operands. *)
Definition compose_serialised (operator : operator) (serialisedqs : list string)
  : result string :=
  match serialisedqs with
  | [] => Ok "Query()"
  | [s] => Ok s
  | [_; _] =>
      sym ← infix_str operator;
      Ok ("(" +:+ join sym serialisedqs +:+ ")")
  | _ =>
      operator_str ← operator_str operator;
      Ok ("Query.compose(" +:+ operator_str +:+ ", ("
            +:+ join ", " serialisedqs +:+ "))")
  end.

(** [compose]. Entries of [queries] that are [None] are dropped. *)
Definition compose (operator : operator) (queries : list (option operand))
  : result t :=
  let queries := omap id queries in
  match queries with
  | [] => Query_
  | [q] => Query_of q
  | _ =>
      check_queries queries;;
      flattened_queries ← flatten operator queries;
      result ← Query_;
      let result := set_op_subqs operator flattened_queries result in
      '(xapqs, serialisedqs, result) ←
        for_each compose_step ([], Some [], result) flattened_queries;
      let result := set_query (xapian_Query_multi operator xapqs) result in
      match serialisedqs with
      | Some serialisedqs =>
          s ← compose_serialised operator serialisedqs;
          Ok (_set_serialised result (Some s))
      | None => Ok result
      end
  end.

(** ** Scaling *)

(** What may stand on the other side of [*]: a number or another object. *)
Inductive multiplier :=
  | a_number (x : number)
  | not_a_number.

(** [__mul__]: the engine accepts a number and raises [TypeError] on
    anything else, which [__mul__] turns into [NotImplemented]. *)
Definition __mul__ (self : t) (multiplier : multiplier)
  : result (or_NotImplemented t) :=
  result ← Query_;
  result ← __merge_params result self;
  _check_composable self;;
  match multiplier with
  | a_number x =>
      let result :=
        match __serialised self with
        | Some s =>
            _set_serialised result
              (Some ("(" +:+ s +:+ " * " +:+ repr_number x +:+ ")"))
        | None => result
        end in
      Ok (Value (set_query (xapian_Query_scale (__query self) x) result))
  | not_a_number => Ok NotImplemented
  end.

(** [__rmul__] *)
Definition __rmul__ (self : t) (lhs : multiplier)
  : result (or_NotImplemented t) :=
  __mul__ self lhs.

(** The expression [self * multiplier]: when [__mul__] declines, so does
    the number's reflected method, and the interpreter raises. *)
Definition mul (self : t) (multiplier : multiplier) : result t :=
  r ← __mul__ self multiplier;
  match r with
  | Value q => Ok q
  | NotImplemented =>
      Raise (TypeError "unsupported operand type(s) for *")
  end.

(** ** The binary operators *)

(** [__and__], [__or__]: [other] is a Query or a raw engine query. *)
Definition __and__ (self : t) (other : operand) : result t :=
  compose OP_AND [Some (xappy_q self); Some other].
Definition __or__ (self : t) (other : operand) : result t :=
  compose OP_OR [Some (xappy_q self); Some other].

(** The dictionary of method names in [__combine_with]. *)
Definition funcname (operator : operator) : result string :=
  match operator with
  | OP_XOR => Ok ".xor"
  | OP_AND_NOT => Ok ".and_not"
  | OP_FILTER => Ok ".filter"
  | OP_AND_MAYBE => Ok ".adjust"
  | _ => Raise (KeyError operator)
  end.

(** [__combine_with] *)
Definition __combine_with (self : t) (operator : operator) (other : operand)
  : result t :=
  result ← Query_of (xappy_q self);
  _check_composable self;;
  '(oquery, result) ←
    match other with
    | inl other => Ok (other, result)
    | inr other =>
        _check_composable other;;
        result ← __merge_params result other;
        match __serialised self, __serialised other with
        | Some s, Some o =>
            funcname ← funcname operator;
            Ok (__query other,
                _set_serialised result
                  (Some (join "" [s; funcname; "(" +:+ o +:+ ")"])))
        | _, _ => Ok (__query other, result)
        end
    end;
  Ok (set_query (xapian_Query_pair operator (__query self) oquery) result).

Definition __xor__ (self : t) (other : operand) : result t :=
  __combine_with self OP_XOR other.
Definition xor (self : t) (other : operand) : result t :=
  __combine_with self OP_XOR other.
Definition and_not (self : t) (other : operand) : result t :=
  __combine_with self OP_AND_NOT other.
Definition filter (self : t) (other : operand) : result t :=
  __combine_with self OP_FILTER other.
Definition adjust (self : t) (other : operand) : result t :=
  __combine_with self OP_AND_MAYBE other.
Definition and_maybe := adjust.

(** ** Weights *)

(** [SearchConnection.get_max_possible_weight(query)] *)
Variable SearchConnection_get_max_possible_weight :
  SearchConnection → t → number.

(** [get_max_possible_weight] *)
Definition get_max_possible_weight (self : t) : result number :=
  if empty self then Ok number_0
  else match __conn self with
       | None => Raise NoConnectionError
       | Some conn => Ok (SearchConnection_get_max_possible_weight conn self)
       end.

(** [s + suffix] where [s] may be [None]. *)
Definition add_str (s : option string) (suffix : string) : result string :=
  match s with
  | Some s => Ok (s +:+ suffix)
  | None =>
      Raise (TypeError "unsupported operand type(s) for +: 'NoneType' and 'str'")
  end.

(** [norm]; the default [maxweight] is the literal [1.0]. *)
Definition norm (self : t) (maxweight : number) : result t :=
  max_possible ← get_max_possible_weight self;
  if number_gt_0 max_possible then
    result ← mul self (a_number (number_div maxweight max_possible));
    if number_eq_1 maxweight then
      s ← add_str (__serialised self) ".norm()";
      Ok (_set_serialised result (Some s))
    else
      s ← add_str (__serialised self) ".norm(";
      Ok (_set_serialised result
            (Some (s +:+ repr_number maxweight +:+ ")")))
  else Ok self.

(** ** Serialised text *)

(** [evalable_repr] *)
Definition evalable_repr (self : t) : option string := __serialised self.

(** ** Facets *)

(** [d.setdefault('facets', {'invert': b})] followed by
    [facets.setdefault('fields', {})]: the spec in place, or a fresh one. *)
Definition setdefault_facets (params : gmap string facets_spec) (b : bool)
  : facets_spec :=
  default {| invert := b; fields := ∅ |} (params !! "facets").

(** [''.join(items)] where an item may be [None]. *)
Definition join_items (first : option string) (rest : list string)
  : result string :=
  match first with
  | Some s => Ok (join "" (s :: rest))
  | None =>
      Raise (TypeError "sequence item 0: expected str instance, NoneType found")
  end.

(** [get_facets] *)
Definition get_facets (self : t) (fieldnames : list string)
    (checkatleast desired_num_of_categories : option Z) : result t :=
  result ← Query_of (xappy_q self);
  let facets := setdefault_facets (__search_params result) false in
  if invert facets then
    Raise (ValueError "get_facets() called on Query for which get_facets_except() had already been called")
  else
    let fields :=
      foldl (λ fields fieldname,
               <[fieldname := (checkatleast, desired_num_of_categories)]> fields)
            (fields facets) fieldnames in
    let result :=
      set_search_params
        (<["facets" := {| invert := invert facets; fields := fields |}]>
           (__search_params result)) result in
    s ← join_items (__serialised self)
          [".get_facets("; repr_tuple repr_str fieldnames; ", ";
           repr_int_or_None checkatleast; ", ";
           repr_int_or_None desired_num_of_categories; ")"];
    Ok (_set_serialised result (Some s)).

(** [get_facet] *)
Definition get_facet (self : t) (fieldname : string)
    (checkatleast desired_num_of_categories : option Z) : result t :=
  get_facets self [fieldname] checkatleast desired_num_of_categories.

(** [get_facets_except]. Its last statement calls [''.join] with four
    arguments; [str.join] takes one, so the call raises. *)
Definition get_facets_except (self : t) (fieldnames : list string)
    (checkatleast desired_num_of_categories : option Z) : result t :=
  result ← Query_of (xappy_q self);
  let facets := setdefault_facets (__search_params result) true in
  if negb (invert facets) then
    Raise (ValueError "get_facets_except() called on Query for which get_facets() had already been called")
  else
    let fields :=
      foldl (λ fields fieldname, <[fieldname := (None, None)]> fields)
            (fields facets) fieldnames in
    let result :=
      set_search_params
        (<["facets" := {| invert := invert facets; fields := fields |}]>
           (__search_params result)) result in
    s ← @Raise string
          (TypeError "join() takes exactly one argument (4 given)");
    Ok (_set_serialised result (Some s)).

(** ** Accessors *)

(** [_get_xapian_query] *)
Definition _get_xapian_query (self : t) : xapian_Query := __query self.

(** [_get_ranges] *)
Definition _get_ranges (self : t) : list range := __ranges self.

(** [_get_queryid]: the first component of [__cacheinfo]. *)
Definition _get_queryid (self : t) : option Z := __cacheinfo self.

(** The ranges an operand brings to the merge: a raw engine query brings
    none. *)
Definition ranges_of (q : operand) : list range :=
  match q with
  | inl _ => []
  | inr q => __ranges q
  end.

(** The engine query an operand stands for. *)
Definition xapian_of (q : operand) : xapian_Query :=
  match q with
  | inl q => q
  | inr q => __query q
  end.

(** The references an operand brings to the merge. *)
Definition refs_of (q : operand) : list pyref :=
  match q with
  | inl _ => []
  | inr q => __refs q
  end.

(** ** Cached results *)

Definition set_cacheinfo (x : option Z) (q : t) : t :=
  mk (__query q) (__refs q) (__conn q) (__ranges q) (__serialised q) x
     (__search_params q) (__op q) (__subqs q).

(** The literal [1.0], the default [maxweight] of [norm]. *)
Variable number_1 : number.

(** [SearchConnection.query_cached(cached_id)] *)
Variable SearchConnection_query_cached : SearchConnection → Z → operand.

(** [merge_with_cached]; [cached_id] is an [int], which ['%d'] prints in
    decimal. Of the new [__cacheinfo], [(cached_id, self)], the identifier
    is kept. *)
Definition merge_with_cached (self : t) (cached_id : Z) : result t :=
  match __conn self with
  | None => Raise NoConnectionError
  | Some conn =>
      normed ← norm self number_1;
      result ← __or__ normed (SearchConnection_query_cached conn cached_id);
      s ← add_str (__serialised self)
            (".merge_with_cached(" +:+ pretty cached_id +:+ ")");
      Ok (set_cacheinfo (Some cached_id) (_set_serialised result (Some s)))
  end.

End with_externals.

(** [operand], outside the section. *)
Abbreviation operand := (xapian_Query + t)%type.

End Query.

(** ** A sample of the collaborators

    Engine expressions as syntax trees, connections as numbered handles and
    numbers as rationals: enough to run the operations on concrete
    queries. *)
Module Sample.

Inductive expr :=
  | MatchNothing
  | Term (term : string)
  | Multi (op : operator) (subqs : list expr)
  | Pair (op : operator) (left right : expr)
  | Scale (q : expr) (factor : Q).

(** [repr] of a float of integral value [n] is [n.0]; the other values
    are written as a fraction. *)
Definition repr_Q (x : Q) : string :=
  let x := Qred x in
  if decide (Qden x = 1%positive) then pretty (Qnum x) +:+ ".0"
  else pretty (Qnum x) +:+ "/" +:+ pretty (Zpos (Qden x)).

(** [repr] of a [str] without quotes or backslashes. *)
Definition repr_plain (s : string) : string := "'" +:+ s +:+ "'".

Definition externals : Externals := {|
  number := Q;
  xapian_Query := expr;
  xapian_Query_new := MatchNothing;
  xapian_Query_multi := Multi;
  xapian_Query_pair := Pair;
  xapian_Query_scale := Scale;
  xapian_Query_empty := λ q, match q with MatchNothing => true | _ => false end;
  SearchConnection := nat;
  number_0 := 0%Q;
  number_gt_0 := λ x, bool_decide (0 < Qnum x)%Z;
  number_eq_1 := λ x, Qeq_bool x 1;
  number_div := Qdiv;
  repr_number := repr_Q;
  repr_str := repr_plain;
  pyref := unit;
  rangeval := Z;
|}.

#[local] Existing Instance externals.

(** Connection number [n] reports [n] as the maximum weight of any
    query. *)
Definition max_weight (conn : nat) (_ : Query.t) : Q := inject_Z (Z.of_nat conn).

(** [Query(xapian.Query(term), _conn=conn, _serialised=text)] *)
Definition leaf (term : string) (conn : option nat) (text : option string)
  : Query.t :=
  Query.mk (Term term) [] conn [] text None ∅ None None.

Definition a : Query.t := leaf "a" None (Some "A").
Definition b : Query.t := leaf "b" None (Some "B").
Definition c : Query.t := leaf "c" None (Some "C").

(** [a.get_facets(('f',))], and the same on a query of connection 5. *)
Definition facets_f : gmap string facets_spec :=
  {["facets" := {| invert := false; fields := {["f" := (None, None)]} |}]}.
Definition a_facets : Query.t :=
  Query.mk (Term "a") [] None [] (Some "A.get_facets(('f',), None, None)")
    None facets_f None None.
Definition a5_facets : Query.t :=
  Query.mk (Term "a") [] (Some 5%nat) []
    (Some "A.get_facets(('f',), None, None)") None facets_f None None.

(** Three ranges. *)
Definition r1 : Query.range := ("price", 0%Z, 10%Z).
Definition r2 : Query.range := ("price", 10%Z, 20%Z).
Definition r3 : Query.range := ("year", 1990%Z, 2000%Z).

(** The cached results of a connection: a raw engine query naming the
    cache entry. *)
Definition query_cached (conn : nat) (cached_id : Z) : Query.operand :=
  inl (Term ("cached" +:+ pretty cached_id)).

End Sample.

(** ** Properties *)

Section properties.
Context `{Externals}.
Implicit Types (self query a b c q : Query.t) (other : Query.operand).

(** *** Results *)

Lemma bind_Ok {A B} (m : result A) (k : A → result B) (y : B) :
  m ≫= k = Ok y → ∃ x, m = Ok x ∧ k x = Ok y.
Proof. destruct m as [x|e]; simpl; [eauto | discriminate]. Qed.

Lemma for_each_app {A S} (body : S → A → result S) (s : S) (l1 l2 : list A) :
  for_each body s (l1 ++ l2) = for_each body s l1 ≫= λ s', for_each body s' l2.
Proof.
  revert s. induction l1 as [|x l1 IH]; intros s; simpl; [done|].
  destruct (body s x) as [s'|e]; simpl; [apply IH | done].
Qed.

(** *** The range loop *)

Lemma merge_ranges_cons (l1 l2 : list Query.range) (x : Query.range) :
  Query.merge_ranges l1 (x :: l2)
  = Query.merge_ranges (if decide (x ∈ l1) then l1 else l1 ++ [x]) l2.
Proof. reflexivity. Qed.

(** The loop appends to the target, in the order of the source and once
    each, the source ranges the target does not hold. *)
Lemma merge_ranges_appends (l2 l1 : list Query.range) :
  ∃ new, Query.merge_ranges l1 l2 = l1 ++ new
         ∧ NoDup new
         ∧ (∀ x, x ∈ new ↔ x ∈ l2 ∧ x ∉ l1)
         ∧ new `sublist_of` l2.
Proof.
  revert l1. induction l2 as [|x l2 IH]; intros l1.
  - exists []. rewrite app_nil_r. split_and!; [done|constructor| |done].
    intros x. rewrite !elem_of_nil. tauto.
  - rewrite merge_ranges_cons. case_decide as Hx.
    + destruct (IH l1) as (new & -> & Hnd & Hin & Hsub).
      exists new. split_and!; [done|done| |by apply sublist_cons].
      intros y. rewrite Hin, elem_of_cons. split; [tauto|].
      intros [[->|Hy] Hn]; [done|tauto].
    + destruct (IH (l1 ++ [x])) as (new & -> & Hnd & Hin & Hsub).
      exists (x :: new). rewrite <- app_assoc. simpl.
      split_and!; [done| | |by apply sublist_skip].
      * apply NoDup_cons. split; [|done].
        rewrite Hin, elem_of_app, list_elem_of_singleton. tauto.
      * intros y. rewrite !elem_of_cons, Hin, elem_of_app, list_elem_of_singleton.
        destruct (decide (y = x)) as [->|Hne]; [tauto|]. tauto.
Qed.

Lemma merge_ranges_NoDup (l1 l2 : list Query.range) :
  NoDup l1 → NoDup (Query.merge_ranges l1 l2).
Proof.
  intros Hl1. destruct (merge_ranges_appends l2 l1) as (new & -> & Hnd & Hin & _).
  apply NoDup_app. split_and!; [done| |done].
  intros x Hx Hx'. apply Hin in Hx'. tauto.
Qed.

(** *** Metadata merge *)

Lemma merge_params_Ok self query r :
  Query.__merge_params self query = Ok r →
  Query.__ranges r = Query.merge_ranges (Query.__ranges self) (Query.__ranges query)
  ∧ Query.__refs r = Query.__refs self ++ Query.__refs query
  ∧ Query.__query r = Query.__query self
  ∧ Query.__serialised r = Query.__serialised self
  ∧ Query.__search_params r = Query.__search_params self
  ∧ Query.__op r = Query.__op self
  ∧ Query.__subqs r = Query.__subqs self.
Proof.
  unfold Query.__merge_params. intros Hm.
  apply bind_Ok in Hm as (conn & _ & [= <-]). done.
Qed.

(** [__merge_params] raises only on two different connections. *)
Lemma merge_params_total self query :
  (∀ k1 k2, Query.__conn self = Some k1 → Query.__conn query = Some k2 → k1 = k2) →
  ∃ r, Query.__merge_params self query = Ok r.
Proof.
  intros Hc. unfold Query.__merge_params.
  destruct (Query.__conn self) as [k1|] eqn:E1,
           (Query.__conn query) as [k2|] eqn:E2;
    case_decide as Hd; simpl; eauto.
  destruct Hd. f_equal. by apply Hc.
Qed.

Lemma merge_params_compatible self query :
  (∀ k k', Query.__conn self = Some k → Query.__conn query = Some k' → k = k') →
  Query.__merge_params self query
  = Ok (Query.set_ranges
          (Query.merge_ranges (Query.__ranges self) (Query.__ranges query))
          (Query.set_refs (Query.__refs self ++ Query.__refs query)
             (Query.set_conn
                (match Query.__conn self with
                 | Some k => Some k
                 | None => Query.__conn query
                 end) self))).
Proof.
  intros Hk. unfold Query.__merge_params.
  destruct (Query.__conn self) as [k|] eqn:E1,
           (Query.__conn query) as [k'|] eqn:E2;
    case_decide as Hd; simpl; try done.
  destruct Hd. f_equal. by apply Hk.
Qed.

(** C8: merging a query that carries a connection into one that carries a
    different connection raises the connection-mismatch [ValueError]; when
    exactly one of the two carries a connection the merge succeeds and the
    merged object carries it. *)
Theorem merge_params_connection self query (k : SearchConnection) :
  (∀ k', Query.__conn self = Some k → Query.__conn query = Some k' → k ≠ k' →
         Query.__merge_params self query = Raise ConnectionMismatchError)
  ∧ (Query.__conn self = Some k → Query.__conn query = None →
     ∃ r, Query.__merge_params self query = Ok r ∧ Query.__conn r = Some k)
  ∧ (Query.__conn self = None → Query.__conn query = Some k →
     ∃ r, Query.__merge_params self query = Ok r ∧ Query.__conn r = Some k).
Proof.
  unfold Query.__merge_params. split_and!.
  - intros k' -> -> Hne. case_decide as Hd; [done|]. congruence.
  - intros -> ->. case_decide; [|done]. simpl. eauto.
  - intros -> ->. case_decide; [|done]. simpl. eauto.
Qed.

(** C9: a merge leaves the ranges of the target in place and appends, once
    each and in the order of the source, the source ranges that the
    target does not hold (compared as whole triples); so a triple held by
    both a duplicate-free target and the source occurs once in the
    result. Only a connection mismatch makes the merge fail. *)
Theorem merge_params_ranges_union self query :
  (∀ k1 k2, Query.__conn self = Some k1 → Query.__conn query = Some k2 → k1 = k2) →
  ∃ r new,
    Query.__merge_params self query = Ok r
    ∧ Query.__ranges r = Query.__ranges self ++ new
    ∧ NoDup new
    ∧ new `sublist_of` Query.__ranges query
    ∧ (∀ x, x ∈ new ↔ x ∈ Query.__ranges query ∧ x ∉ Query.__ranges self)
    ∧ (∀ x, NoDup (Query.__ranges self) →
            x ∈ Query.__ranges self → x ∈ Query.__ranges query →
            count_occ (decide_rel (=)) (Query.__ranges r) x = 1).
Proof.
  intros Hc. destruct (merge_params_total self query Hc) as [r Hr].
  destruct (merge_params_Ok _ _ _ Hr) as (Hranges & _).
  destruct (merge_ranges_appends (Query.__ranges query) (Query.__ranges self))
    as (new & Hnew & Hnd & Hin & Hsub).
  exists r, new. rewrite Hranges. split_and!; try done.
  intros x Hself Hx _.
  apply NoDup_count_occ'; [by apply NoDup_ListNoDup, merge_ranges_NoDup|].
  apply list_elem_of_In. rewrite Hnew, elem_of_app. by left.
Qed.

(** *** Construction *)

Lemma Query__Ok : Query.Query_ = Ok Query.fresh.
Proof. reflexivity. Qed.

(** Merging into an object without connection cannot fail. *)
Lemma merge_params_no_conn self query :
  Query.__conn self = None →
  Query.__merge_params self query
  = Ok (Query.set_ranges
          (Query.merge_ranges (Query.__ranges self) (Query.__ranges query))
          (Query.set_refs (Query.__refs self ++ Query.__refs query)
             (Query.set_conn (Query.__conn query) self))).
Proof.
  intros Hn. unfold Query.__merge_params. rewrite Hn.
  case_decide as Hd; simpl; [done|]. by rewrite <- Hd.
Qed.

Lemma Query_of_xappy q : Query.Query_of (Query.xappy_q q) = Ok (Query.copy_of q).
Proof.
  unfold Query.Query_of, Query.__init__. simpl.
  rewrite merge_params_no_conn by done. unfold Query.copy_of. simpl.
  by destruct (Query.__serialised q).
Qed.

Lemma Query_of_xapian (x : xapian_Query) :
  Query.Query_of (Query.xapian_q x)
  = Ok (Query.mk x [] None [] None None ∅ None None).
Proof. reflexivity. Qed.

(** *** Composability *)

Lemma check_composable_Ok q :
  Query.is_composable q = true → Query._check_composable q = Ok tt.
Proof. unfold Query._check_composable. by intros ->. Qed.

Lemma check_composable_Raise q :
  Query.is_composable q = false →
  Query._check_composable q = Raise CompositionError.
Proof. unfold Query._check_composable. by intros ->. Qed.

Lemma check_composable_cases q :
  Query._check_composable q = Ok tt
  ∨ Query._check_composable q = Raise CompositionError.
Proof.
  unfold Query._check_composable. destruct (Query.is_composable q); auto.
Qed.

(** The first loop of [compose] raises as soon as the operands hold a
    Query that is not composable. *)
Lemma check_queries_Raise (queries : list Query.operand) q :
  inr q ∈ queries → Query.is_composable q = false →
  Query.check_queries queries = Raise CompositionError.
Proof.
  intros Hin Hq. unfold Query.check_queries.
  induction queries as [|x queries IH]; [by apply elem_of_nil in Hin|].
  apply elem_of_cons in Hin as [<-|Hin]; simpl.
  - by rewrite check_composable_Raise.
  - destruct x as [x|q'].
    + simpl. by apply IH.
    + destruct (check_composable_cases q') as [-> | ->]; simpl; [by apply IH|done].
Qed.

Lemma compose_many op (q1 q2 : Query.operand) (rest : list Query.operand)
    (queries : list (option Query.operand)) :
  omap id queries = q1 :: q2 :: rest →
  Query.compose op queries
  = (Query.check_queries (q1 :: q2 :: rest);;
    flattened_queries ← Query.flatten op (q1 :: q2 :: rest);
    result ← Query.Query_;
    let result := Query.set_op_subqs op flattened_queries result in
    '(xapqs, serialisedqs, result) ←
      for_each Query.compose_step ([], Some [], result) flattened_queries;
    let result := Query.set_query (xapian_Query_multi op xapqs) result in
    match serialisedqs with
    | Some serialisedqs =>
        s ← Query.compose_serialised op serialisedqs;
        Ok (Query._set_serialised result (Some s))
    | None => Ok result
    end).
Proof. unfold Query.compose. by intros ->. Qed.

Lemma compose_not_composable op (queries : list (option Query.operand)) q :
  Some (inr q) ∈ queries → (2 ≤ length (omap id queries))%nat →
  Query.is_composable q = false →
  Query.compose op queries = Raise CompositionError.
Proof.
  intros Hin Hlen Hq.
  assert (inr q ∈ omap id queries) as Hin'.
  { apply list_elem_of_omap. by exists (Some (inr q)). }
  destruct (omap id queries) as [|q1 [|q2 rest]] eqn:E; simpl in Hlen; [lia..|].
  rewrite (compose_many _ _ _ _ _ E).
  by rewrite (check_queries_Raise _ _ Hin' Hq).
Qed.

Lemma combine_with_not_composable_l self op other :
  Query.is_composable self = false →
  Query.__combine_with self op other = Raise CompositionError.
Proof.
  intros Hq. unfold Query.__combine_with.
  rewrite Query_of_xappy. simpl. by rewrite check_composable_Raise.
Qed.

Lemma combine_with_not_composable_r self op q :
  Query.is_composable q = false →
  Query.__combine_with self op (inr q) = Raise CompositionError.
Proof.
  intros Hq. unfold Query.__combine_with.
  rewrite Query_of_xappy. simpl.
  destruct (check_composable_cases self) as [-> | ->]; simpl; [|done].
  by rewrite check_composable_Raise.
Qed.

Lemma mul_not_composable self (m : Query.multiplier) :
  Query.is_composable self = false →
  Query.__mul__ self m = Raise CompositionError.
Proof.
  intros Hq. unfold Query.__mul__. rewrite Query__Ok. simpl.
  rewrite merge_params_no_conn by done. simpl.
  by rewrite check_composable_Raise.
Qed.

(** A query returned by [get_facets] carries search parameters. *)
Lemma get_facets_not_composable self fieldnames checkatleast desired f :
  Query.get_facets self fieldnames checkatleast desired = Ok f →
  Query.is_composable f = false.
Proof.
  unfold Query.get_facets. rewrite Query_of_xappy. simpl.
  destruct (invert _); [done|].
  intros Hf. apply bind_Ok in Hf as (s & _ & [= <-]).
  unfold Query.is_composable. simpl.
  case_decide as Hd; [done|].
  apply map_size_empty_iff in Hd. by apply insert_non_empty in Hd.
Qed.

(** C4: a query returned by [get_facets] is refused, with the error of the
    composability check, as an operand of [compose] given two operands or
    more (entries that are [None] not counted), on either side of [&],
    [|], [^], [xor], [and_not], [filter] and [adjust], and as the query
    scaled by [*].  Given it as the only operand (entries that are [None]
    not counted), [compose] makes no check and returns [Query(f)], the
    copy of it, whatever the operator; the copy keeps the search
    parameters, so that it is refused as [f] is. *)
Theorem facet_query_refused self fieldnames checkatleast desired f :
  Query.get_facets self fieldnames checkatleast desired = Ok f →
  (∀ op queries,
     Some (inr f) ∈ queries → (2 ≤ length (omap id queries))%nat →
     Query.compose op queries = Raise CompositionError)
  ∧ (∀ other,
       Query.__and__ f other = Raise CompositionError
       ∧ Query.__or__ f other = Raise CompositionError
       ∧ Query.__xor__ f other = Raise CompositionError
       ∧ Query.xor f other = Raise CompositionError
       ∧ Query.and_not f other = Raise CompositionError
       ∧ Query.filter f other = Raise CompositionError
       ∧ Query.adjust f other = Raise CompositionError
       ∧ Query.and_maybe f other = Raise CompositionError)
  ∧ (∀ a,
       Query.__and__ a (inr f) = Raise CompositionError
       ∧ Query.__or__ a (inr f) = Raise CompositionError
       ∧ Query.__xor__ a (inr f) = Raise CompositionError
       ∧ Query.xor a (inr f) = Raise CompositionError
       ∧ Query.and_not a (inr f) = Raise CompositionError
       ∧ Query.filter a (inr f) = Raise CompositionError
       ∧ Query.adjust a (inr f) = Raise CompositionError
       ∧ Query.and_maybe a (inr f) = Raise CompositionError)
  ∧ (∀ m, Query.__mul__ f m = Raise CompositionError)
  ∧ (∀ op queries,
       omap id queries = [inr f] →
       Query.compose op queries = Ok (Query.copy_of f)
       ∧ Query.__search_params (Query.copy_of f) = Query.__search_params f
       ∧ Query.is_composable (Query.copy_of f) = false).
Proof.
  intros Hf. apply get_facets_not_composable in Hf.
  split_and!.
  5:{ intros op queries E. split_and!; [|done|done].
      unfold Query.compose. rewrite E. apply Query_of_xappy. }
  - intros op queries Hin Hlen. by eapply compose_not_composable.
  - intros other.
    split_and!; try by apply combine_with_not_composable_l.
    + apply compose_not_composable with f; [left|simpl; lia|done].
    + apply compose_not_composable with f; [left|simpl; lia|done].
  - intros a.
    split_and!; try by apply combine_with_not_composable_r.
    + apply compose_not_composable with f; [right; left|simpl; lia|done].
    + apply compose_not_composable with f; [right; left|simpl; lia|done].
  - intros m. by apply mul_not_composable.
Qed.

(** *** Facets *)

(** C2: [get_facets_except] never returns: it raises the [TypeError] of
    [''.join] called with four arguments, or, before that, the
    [ValueError] of a query already marked by [get_facets]. *)
Theorem get_facets_except_raises self fieldnames checkatleast desired :
  Query.get_facets_except self fieldnames checkatleast desired
  = Raise
      (if invert (Query.setdefault_facets (Query.__search_params self) true)
       then TypeError "join() takes exactly one argument (4 given)"
       else ValueError "get_facets_except() called on Query for which get_facets() had already been called").
Proof.
  unfold Query.get_facets_except. rewrite Query_of_xappy. simpl.
  by destruct (invert _).
Qed.

(** *** Unknown serialised text *)

(** C1: a query built from a raw engine query alone has no serialised
    text, and so has the result of a pairwise operator applied to it. But
    composing it, or the raw engine query itself, with a query of text
    [A] by [compose] gives a query whose text is that of the empty query,
    and a pairwise operator applied to the query of text [A] gives a
    query whose text is still [A]. *)
Theorem unknown_text_composition (x y : xapian_Query) (A : string)
    (op : operator) :
  let u := Query.mk x [] None [] None None ∅ None None in
  let a := Query.mk y [] None [] (Some A) None ∅ None None in
  (Query.Query_of (inl x) = Ok u ∧ Query.evalable_repr u = None)
  ∧ (∃ r, Query.__combine_with u op (inr a) = Ok r
          ∧ Query.evalable_repr r = None)
  ∧ (∃ r, Query.compose op [Some (inr u); Some (inr a)] = Ok r
          ∧ Query.evalable_repr r = Some "Query()")
  ∧ (∃ r, Query.compose op [Some (inr a); Some (inr u)] = Ok r
          ∧ Query.evalable_repr r = Some "Query()")
  ∧ (∃ r, Query.compose op [Some (inr a); Some (inl x)] = Ok r
          ∧ Query.evalable_repr r = Some "Query()")
  ∧ (∃ r, Query.__combine_with a op (inr u) = Ok r
          ∧ Query.evalable_repr r = Some A)
  ∧ (∃ r, Query.__combine_with a op (inl x) = Ok r
          ∧ Query.evalable_repr r = Some A).
Proof.
  intros u a. split_and!; [done|..]; eexists; (split; [reflexivity|]); done.
Qed.

(** *** The loops of [compose] *)

Lemma check_queries_app (l1 l2 : list Query.operand) :
  Query.check_queries (l1 ++ l2)
  = (Query.check_queries l1;; Query.check_queries l2).
Proof.
  unfold Query.check_queries at 1. rewrite for_each_app.
  fold (Query.check_queries l1).
  by destruct (Query.check_queries l1) as [[]|].
Qed.

Lemma flatten_from op (l acc : list Query.operand) :
  for_each (λ flattened_queries (x : Query.operand),
              qs ← Query.flatten_one op x; Ok (flattened_queries ++ qs)) acc l
  = (fl ← Query.flatten op l; Ok (acc ++ fl)).
Proof.
  unfold Query.flatten. revert acc.
  induction l as [|x l IH]; intros acc; simpl; [by rewrite app_nil_r|].
  destruct (Query.flatten_one op x) as [qs|e]; simpl; [|done].
  rewrite (IH (acc ++ qs)), (IH qs).
  destruct (for_each _ [] l) as [fl|e]; simpl; [|done].
  by rewrite app_assoc.
Qed.

Lemma flatten_app op (l1 l2 : list Query.operand) :
  Query.flatten op (l1 ++ l2)
  = (f1 ← Query.flatten op l1; f2 ← Query.flatten op l2; Ok (f1 ++ f2)).
Proof.
  unfold Query.flatten at 1. rewrite for_each_app.
  fold (Query.flatten op l1).
  destruct (Query.flatten op l1) as [f1|e]; simpl; [|done].
  apply flatten_from.
Qed.

Lemma flatten_singleton op (x : Query.operand) :
  Query.flatten op [x] = Query.flatten_one op x.
Proof.
  unfold Query.flatten. simpl. by destruct (Query.flatten_one op x).
Qed.

(** The third loop collects the texts and leaves alone all of [result]
    but its connection, references and ranges. *)
Lemma compose_loop_Ok (fl : list Query.operand) xs ss res xs' ss' res' :
  for_each Query.compose_step (xs, ss, res) fl = Ok (xs', ss', res') →
  ss' = (l ← ss; (l ++.) <$> Query.known_texts fl)
  ∧ Query.__op res' = Query.__op res
  ∧ Query.__subqs res' = Query.__subqs res
  ∧ Query.__serialised res' = Query.__serialised res
  ∧ Query.__search_params res' = Query.__search_params res.
Proof.
  revert xs ss res. induction fl as [|[x|q] fl IH]; intros xs ss res; simpl.
  - intros [= <- <- <-]. split_and!; try done.
    destruct ss as [l|]; simpl; [|done]. by rewrite app_nil_r.
  - intros Hl. apply IH in Hl as (-> & -> & -> & -> & ->).
    split_and!; try done. by destruct ss.
  - destruct (Query.__merge_params res q) as [res1|e] eqn:Hm; simpl; [|done].
    apply merge_params_Ok in Hm as (_ & _ & _ & <- & <- & <- & <-).
    intros Hl. apply IH in Hl as (-> & -> & -> & -> & ->).
    split_and!; try done.
    unfold Query.known_texts. simpl.
    destruct ss as [l|]; simpl; [|done].
    destruct (Query.__serialised q) as [s|]; simpl; [|done].
    destruct (mapM Query.text_of fl) as [texts|]; simpl; [|done].
    by rewrite <- app_assoc.
Qed.

(** What [compose] returns on two operands or more. *)
Lemma compose_Ok op (queries : list (option Query.operand))
    (x1 x2 : Query.operand) (rest : list Query.operand) r :
  omap id queries = x1 :: x2 :: rest →
  Query.compose op queries = Ok r →
  ∃ fl, Query.check_queries (x1 :: x2 :: rest) = Ok tt
        ∧ Query.flatten op (x1 :: x2 :: rest) = Ok fl
        ∧ Query.__op r = Some op
        ∧ Query.__subqs r = Some fl
        ∧ Query.__search_params r = ∅
        ∧ match Query.known_texts fl with
          | Some texts =>
              ∃ s, Query.compose_serialised op texts = Ok s
                   ∧ Query.__serialised r = Some s
          | None => Query.__serialised r = Some "Query()"
          end.
Proof.
  intros E Hr. rewrite (compose_many _ _ _ _ _ E) in Hr.
  apply bind_Ok in Hr as ([] & Hcheck & Hr).
  apply bind_Ok in Hr as (fl & Hfl & Hr).
  rewrite Query__Ok in Hr. simpl in Hr.
  apply bind_Ok in Hr as ([[xs ss] res] & Hloop & Hr).
  apply compose_loop_Ok in Hloop as (-> & Hop & Hsub & Hser & Hpar).
  simpl in *. exists fl. rewrite <- Hop, <- Hsub, <- Hpar.
  destruct (Query.known_texts fl) as [texts|]; simpl in Hr.
  - apply bind_Ok in Hr as (s & Hs & [= <-]). simpl.
    split_and!; try done. by exists s.
  - injection Hr as <-. simpl. by rewrite Hser.
Qed.

(** Three texts or more are rendered as a call of [Query.compose]. *)
Lemma compose_serialised_call (texts : list string) :
  (3 ≤ length texts)%nat →
  Query.compose_serialised OP_AND texts
  = Ok ("Query.compose(Query.OP_AND, (" +:+ join ", " texts +:+ "))").
Proof.
  destruct texts as [|s1 [|s2 [|s3 texts]]]; simpl; intros; [lia..|done].
Qed.

Lemma one_connection_weaken (l1 l2 : list (option SearchConnection)) :
  (∀ k, Some k ∈ l1 → Some k ∈ l2) →
  Query.one_connection l2 → Query.one_connection l1.
Proof. intros Hsub Hk k k' Hin Hin'. apply Hk; by apply Hsub. Qed.

(** The third loop runs to its end when the connections met on the way
    are one connection. *)
Lemma compose_loop_total (fl : list Query.operand) xs ss res :
  Query.one_connection (Query.__conn res :: (Query.conn_of <$> fl)) →
  ∃ st, for_each Query.compose_step (xs, ss, res) fl = Ok st.
Proof.
  revert xs ss res. induction fl as [|[x|q] fl IH]; intros xs ss res Hk; simpl.
  - eauto.
  - apply IH. revert Hk. apply one_connection_weaken.
    intros k. simpl. rewrite !elem_of_cons. tauto.
  - rewrite merge_params_compatible.
    2:{ intros k k' Hres Hq. apply Hk; simpl; rewrite ?Hres, ?Hq.
        - left.
        - right. left. }
    simpl. apply IH. revert Hk. apply one_connection_weaken.
    intros k. simpl. destruct (Query.__conn res); rewrite !elem_of_cons; tauto.
Qed.

(** [compose] with [OP_AND] or [OP_OR] returns when its operands are
    composable and flatten to queries of one connection. *)
Lemma compose_returns op (queries : list (option Query.operand))
    (x1 x2 : Query.operand) (rest fl : list Query.operand) :
  op = OP_AND ∨ op = OP_OR →
  omap id queries = x1 :: x2 :: rest →
  Query.check_queries (x1 :: x2 :: rest) = Ok tt →
  Query.flatten op (x1 :: x2 :: rest) = Ok fl →
  Query.one_connection (Query.conn_of <$> fl) →
  ∃ r, Query.compose op queries = Ok r.
Proof.
  intros Hop E Hcheck Hfl Hk. rewrite (compose_many _ _ _ _ _ E).
  rewrite Hcheck, Hfl, Query__Ok. simpl.
  destruct (compose_loop_total fl [] (Some [])
              (Query.set_op_subqs op fl Query.fresh)) as [[[xs ss] res] ->].
  { revert Hk. apply one_connection_weaken.
    intros k. simpl. rewrite elem_of_cons. by intros [?|?]. }
  simpl. destruct ss as [texts|]; simpl; [|eauto].
  assert (∃ s, Query.compose_serialised op texts = Ok s) as [s ->];
    [|simpl; eauto].
  destruct texts as [|s1 [|s2 [|s3 texts]]], Hop as [-> | ->]; simpl; eauto.
Qed.

(** C6: when [compose(OP_AND, [a, b])] returns [inner], composing [inner]
    with [c] is composing [a], [b] and [c]: the same result or the same
    error. The operands of the result are those of [a], of [b] and of
    [c] in order, where a composite of [OP_AND] stands for its own
    operands as they are (not flattened again) and any other query for
    itself; when all their texts are known and they are three or more,
    the text of the result is the call of [Query.compose] on them. *)
Theorem compose_flattening a b c inner :
  Query.compose OP_AND [Some (inr a); Some (inr b)] = Ok inner →
  Query.compose OP_AND [Some (inr inner); Some (inr c)]
  = Query.compose OP_AND [Some (inr a); Some (inr b); Some (inr c)]
  ∧ ∀ r,
      Query.compose OP_AND [Some (inr a); Some (inr b); Some (inr c)] = Ok r →
      ∃ fa fb fc,
        Query.flatten_one OP_AND (inr a) = Ok fa
        ∧ Query.flatten_one OP_AND (inr b) = Ok fb
        ∧ Query.flatten_one OP_AND (inr c) = Ok fc
        ∧ Query.__subqs inner = Some (fa ++ fb)
        ∧ Query.__subqs r = Some (fa ++ fb ++ fc)
        ∧ ∀ texts,
            Query.known_texts (fa ++ fb ++ fc) = Some texts →
            (3 ≤ length texts)%nat →
            Query.evalable_repr r
            = Some ("Query.compose(Query.OP_AND, ("
                      +:+ join ", " texts +:+ "))").
Proof.
  intros Hinner.
  destruct (compose_Ok OP_AND [Some (inr a); Some (inr b)]
              (inr a) (inr b) [] inner eq_refl Hinner)
    as (fab & Hcheck & Hfab & Hop & Hsub & Hpar & _).
  assert (Query.flatten OP_AND [inr inner; inr c]
          = Query.flatten OP_AND [inr a; inr b; inr c]) as Hflat.
  { change [inr inner; inr c] with ([inr inner] ++ [inr c] : list Query.operand).
    change [inr a; inr b; inr c]
      with ([inr a; inr b] ++ [inr c] : list Query.operand).
    rewrite !flatten_app.
    rewrite Hfab, !flatten_singleton.
    assert (Query.flatten_one OP_AND (inr inner) = Ok fab) as ->; [|done].
    unfold Query.flatten_one. rewrite Hop, decide_True by done.
    by rewrite Hsub. }
  assert (Query.check_queries [inr inner; inr c]
          = Query.check_queries [inr a; inr b; inr c]) as Hchk.
  { change [inr inner; inr c] with ([inr inner] ++ [inr c] : list Query.operand).
    change [inr a; inr b; inr c]
      with ([inr a; inr b] ++ [inr c] : list Query.operand).
    rewrite !check_queries_app.
    rewrite Hcheck.
    assert (Query.check_queries [inr inner] = Ok tt) as ->; [|done].
    unfold Query.check_queries. simpl.
    rewrite check_composable_Ok; [done|].
    unfold Query.is_composable. by rewrite Hpar. }
  split.
  - rewrite (compose_many OP_AND (inr inner) (inr c) []
               [Some (inr inner); Some (inr c)] eq_refl).
    rewrite (compose_many OP_AND (inr a) (inr b) [inr c]
               [Some (inr a); Some (inr b); Some (inr c)] eq_refl).
    by rewrite Hchk, Hflat.
  - intros r Hr.
    destruct (compose_Ok OP_AND [Some (inr a); Some (inr b); Some (inr c)]
                (inr a) (inr b) [inr c] r eq_refl Hr)
      as (fl & _ & Hfl & _ & Hsubr & _ & Htext).
    change [inr a; inr b; inr c]
      with ([inr a; inr b] ++ [inr c] : list Query.operand) in Hfl.
    rewrite flatten_app, Hfab, flatten_singleton in Hfl.
    apply bind_Ok in Hfl as (fab' & [= <-] & Hfl).
    apply bind_Ok in Hfl as (fc & Hc & [= <-]).
    change [inr a; inr b] with ([inr a] ++ [inr b] : list Query.operand) in Hfab.
    rewrite flatten_app, !flatten_singleton in Hfab.
    apply bind_Ok in Hfab as (fa & Ha & Hfab).
    apply bind_Ok in Hfab as (fb & Hb & [= <-]).
    exists fa, fb, fc. rewrite <- app_assoc in Hsubr, Htext.
    split_and!; try done.
    intros texts Hknown Hlen. rewrite Hknown in Htext.
    destruct Htext as (s & Hs & Hser).
    rewrite compose_serialised_call in Hs by done.
    injection Hs as <-. done.
Qed.

(** *** Serialised text of compositions *)

#[local] Arguments Query.flatten_one : simpl never.
#[local] Arguments Query._check_composable : simpl never.
#[local] Arguments Query.__merge_params : simpl never.

Lemma is_composable_no_params q :
  Query.__search_params q = ∅ → Query.is_composable q = true.
Proof. unfold Query.is_composable. by intros ->. Qed.

Lemma flatten_one_no_op op q :
  Query.__op q = None → Query.flatten_one op (inr q) = Ok [inr q].
Proof. unfold Query.flatten_one. by intros ->. Qed.

(** The attributes of a query built from a raw engine query. *)
Lemma init_xapian (x : xapian_Query) refs conn ranges serialised queryid q :
  Query.__init__ (Some (inl x)) refs conn ranges serialised queryid = Ok q →
  Query.__conn q = conn ∧ Query.__serialised q = serialised
  ∧ Query.__search_params q = ∅ ∧ Query.__op q = None.
Proof. by intros [= <-]. Qed.

(** C3: for leaf queries [a], [b], [c] of texts [A], [B], [C] which do
    not carry two different connections, [compose(OP_OR, [a, b, c])] has
    the text [Query.compose(Query.OP_OR, (A, B, C))], [a.filter(b)] the
    text [A.filter(B)], and [a * m], for a number [m] whose [repr] is
    [2.0], the text [(A * 2.0)]. *)
Theorem leaf_composition_texts (xa xb xc : xapian_Query)
    (ra rb rc : option (list pyref)) (ka kb kc : option SearchConnection)
    (ga gb gc : option (list Query.range)) (ia ib ic : option Z)
    (m : number) a b c :
  Query.__init__ (Some (inl xa)) ra ka ga (Some "A") ia = Ok a →
  Query.__init__ (Some (inl xb)) rb kb gb (Some "B") ib = Ok b →
  Query.__init__ (Some (inl xc)) rc kc gc (Some "C") ic = Ok c →
  Query.one_connection [ka; kb; kc] →
  repr_number m = "2.0" →
  (∃ r, Query.compose OP_OR [Some (inr a); Some (inr b); Some (inr c)] = Ok r
        ∧ Query.evalable_repr r = Some "Query.compose(Query.OP_OR, (A, B, C))")
  ∧ (∃ r, Query.filter a (inr b) = Ok r
          ∧ Query.evalable_repr r = Some "A.filter(B)")
  ∧ (∃ r, Query.mul a (Query.a_number m) = Ok r
          ∧ Query.evalable_repr r = Some "(A * 2.0)").
Proof.
  intros Ha Hb Hc Hk Hm.
  apply init_xapian in Ha as (Hka & Hsa & Hpa & Hoa).
  apply init_xapian in Hb as (Hkb & Hsb & Hpb & Hob).
  apply init_xapian in Hc as (Hkc & Hsc & Hpc & Hoc).
  split_and!.
  - rewrite (compose_many OP_OR (inr a) (inr b) [inr c]
               [Some (inr a); Some (inr b); Some (inr c)] eq_refl).
    unfold Query.check_queries, Query.flatten. simpl.
    rewrite !check_composable_Ok by by apply is_composable_no_params.
    simpl. rewrite !flatten_one_no_op by done. simpl.
    rewrite merge_params_no_conn by done. simpl.
    rewrite merge_params_compatible; simpl.
    2:{ rewrite Hka, Hkb. intros k k' -> ->. apply Hk; set_solver. }
    rewrite merge_params_compatible; simpl.
    2:{ rewrite Hka, Hkb, Hkc. intros k k' Hx ->.
        destruct ka; simplify_eq; apply Hk; set_solver. }
    rewrite Hsa, Hsb, Hsc. simpl. eexists. split; [reflexivity|done].
  - unfold Query.filter, Query.__combine_with.
    rewrite Query_of_xappy. simpl.
    rewrite !check_composable_Ok by by apply is_composable_no_params.
    simpl. rewrite merge_params_compatible; simpl.
    2:{ rewrite Hka, Hkb. intros k k' -> ->. apply Hk; set_solver. }
    rewrite Hsa, Hsb. simpl. eexists. split; [reflexivity|done].
  - unfold Query.mul, Query.__mul__. rewrite Query__Ok. simpl.
    rewrite merge_params_no_conn by done. simpl.
    rewrite check_composable_Ok by by apply is_composable_no_params.
    simpl. rewrite Hsa, Hm. eexists. split; [reflexivity|done].
Qed.

(** *** Normalisation *)

Variable SearchConnection_get_max_possible_weight :
  SearchConnection → Query.t → number.

Abbreviation norm := (Query.norm SearchConnection_get_max_possible_weight).
Abbreviation get_max_possible_weight :=
  (Query.get_max_possible_weight SearchConnection_get_max_possible_weight).

(** C5: on a query that is not empty and carries no connection, [norm]
    raises the [ValueError] of a missing connection.  On an empty query
    the guard [if self.empty(): return 0] comes before the test of the
    connection: [get_max_possible_weight] returns [0] whatever the
    connection of the query, none included, and whatever a connection
    would report; and, [0 > 0.] being false, [norm] returns the query
    itself. *)
Theorem norm_without_connection self (maxweight : number) :
  (Query.empty self = false → Query.__conn self = None →
   norm self maxweight = Raise NoConnectionError)
  ∧ (Query.empty self = true →
     get_max_possible_weight self = Ok number_0
     ∧ (∀ conn,
          get_max_possible_weight (Query.set_conn conn self) = Ok number_0)
     ∧ (number_gt_0 number_0 = false → norm self maxweight = Ok self)).
Proof.
  split.
  - intros He Hc. unfold Query.norm, Query.get_max_possible_weight.
    by rewrite He, Hc.
  - intros He.
    assert (get_max_possible_weight self = Ok number_0) as Hw
      by (unfold Query.get_max_possible_weight; by rewrite He).
    split_and!.
    + exact Hw.
    + intros conn. unfold Query.get_max_possible_weight.
      change (Query.empty (Query.set_conn conn self)) with (Query.empty self).
      by rewrite He.
    + intros H0. unfold Query.norm. rewrite Hw. simpl. by rewrite H0.
Qed.

(** C7: when the maximum possible weight of a query is not positive,
    [norm] returns the query itself. *)
Theorem norm_weight_not_positive self (maxweight w : number) :
  get_max_possible_weight self = Ok w → number_gt_0 w = false →
  norm self maxweight = Ok self.
Proof.
  intros Hw Hpos. unfold Query.norm. rewrite Hw. simpl. by rewrite Hpos.
Qed.

Lemma mul_composable self (x : number) :
  Query.is_composable self = true →
  ∃ r, Query.mul self (Query.a_number x) = Ok r.
Proof.
  intros Hq. unfold Query.mul, Query.__mul__. rewrite Query__Ok. simpl.
  rewrite merge_params_no_conn by done. simpl.
  rewrite check_composable_Ok by done. simpl. eauto.
Qed.

(** C10: on a composable query that is not empty, whose connection
    reports a positive maximum weight and whose serialised text is
    [None], [norm] raises the [TypeError] of [None + str]; when such a
    query is not composable the scaling raises first, the error of the
    composability check. *)
Theorem norm_unknown_text self (maxweight : number) (k : SearchConnection) :
  Query.empty self = false → Query.__conn self = Some k →
  number_gt_0 (SearchConnection_get_max_possible_weight k self) = true →
  Query.__serialised self = None →
  (Query.is_composable self = true →
   norm self maxweight
   = Raise (TypeError "unsupported operand type(s) for +: 'NoneType' and 'str'"))
  ∧ (Query.is_composable self = false →
     norm self maxweight = Raise CompositionError).
Proof.
  intros He Hc Hpos Hs. unfold Query.norm, Query.get_max_possible_weight.
  rewrite He, Hc. simpl. rewrite Hpos. split; intros Hq.
  - destruct (mul_composable self
                (number_div maxweight
                   (SearchConnection_get_max_possible_weight k self)) Hq)
      as [r ->].
    simpl. rewrite Hs. by destruct (number_eq_1 maxweight).
  - unfold Query.mul. by rewrite mul_not_composable.
Qed.

End properties.

(** ** Further properties *)

Section further_properties.
Context `{Externals}.

Implicit Types (self query a b c q r : Query.t) (other : Query.operand).

(** *** Ranges and merging *)

Lemma merge_ranges_elem (l1 l2 : list Query.range) (x : Query.range) :
  x ∈ Query.merge_ranges l1 l2 ↔ x ∈ l1 ∨ x ∈ l2.
Proof.
  destruct (merge_ranges_appends l2 l1) as (new & -> & _ & Hin & _).
  rewrite elem_of_app, Hin.
  destruct (decide (x ∈ l1)); tauto.
Qed.

(** A source whose ranges the target already holds adds nothing. *)
Lemma merge_ranges_absorb (l1 l2 : list Query.range) :
  (∀ x, x ∈ l2 → x ∈ l1) → Query.merge_ranges l1 l2 = l1.
Proof.
  intros Hsub.
  destruct (merge_ranges_appends l2 l1) as (new & -> & _ & Hin & _).
  destruct new as [|x new]; [by rewrite app_nil_r|].
  destruct (proj1 (Hin x)) as [Hx Hn]; [left|]. destruct Hn. by apply Hsub.
Qed.

(** Ranges without repetition are appended as they are. *)
Lemma merge_ranges_NoDup_app (l2 l1 : list Query.range) :
  NoDup (l1 ++ l2) → Query.merge_ranges l1 l2 = l1 ++ l2.
Proof.
  revert l1. induction l2 as [|x l2 IH]; intros l1 Hnd.
  - by rewrite app_nil_r.
  - rewrite merge_ranges_cons.
    apply NoDup_app in Hnd as Hnd'. destruct Hnd' as (_ & Hdis & _).
    rewrite decide_False; [|intros Hx; apply (Hdis x Hx); left].
    rewrite IH; rewrite <- app_assoc; done.
Qed.

Lemma merge_params_Ok_conn self query r :
  Query.__merge_params self query = Ok r →
  Query.__conn r = match Query.__conn self with
                   | Some k => Some k
                   | None => Query.__conn query
                   end
  ∧ Query.__cacheinfo r = Query.__cacheinfo self
  ∧ (∀ k k', Query.__conn self = Some k → Query.__conn query = Some k' →
             k = k').
Proof.
  unfold Query.__merge_params. intros Hm.
  destruct (Query.__conn self) as [k|] eqn:E1,
           (Query.__conn query) as [k'|] eqn:E2;
    case_decide as Hd; simpl in Hm; try discriminate;
    injection Hm as <-; simpl; rewrite ?E1; split_and!; try done;
    intros ? ? ? ?; congruence.
Qed.

Lemma merge_params_Raise self query e :
  Query.__merge_params self query = Raise e → e = ConnectionMismatchError.
Proof.
  unfold Query.__merge_params.
  destruct (Query.__conn self), (Query.__conn query);
    case_decide; simpl; congruence.
Qed.

(** X1: once a query has been merged into an object, merging it again
    succeeds and changes neither the ranges nor the connection of the
    object. *)
Theorem merge_params_again self query r :
  Query.__merge_params self query = Ok r →
  ∃ r', Query.__merge_params r query = Ok r'
        ∧ Query.__ranges r' = Query.__ranges r
        ∧ Query.__conn r' = Query.__conn r.
Proof.
  intros Hm.
  destruct (merge_params_Ok _ _ _ Hm) as (Hranges & _).
  destruct (merge_params_Ok_conn _ _ _ Hm) as (Hconn & _ & Hk).
  assert (∀ k k', Query.__conn r = Some k → Query.__conn query = Some k' →
                  k = k') as Hk'.
  { intros k k'. rewrite Hconn.
    destruct (Query.__conn self) as [k0|] eqn:E; [|congruence].
    intros [= <-] Hq. by apply (Hk k0 k'). }
  rewrite (merge_params_compatible r query Hk'). eexists. split; [done|].
  simpl. split.
  - apply merge_ranges_absorb. intros x Hx.
    rewrite Hranges. apply merge_ranges_elem. by right.
  - destruct (Query.__conn r) as [k|] eqn:E; [done|].
    rewrite Hconn in E. by destruct (Query.__conn self).
Qed.

Lemma Query_of_inr q : Query.Query_of (inr q) = Ok (Query.copy_of q).
Proof. apply Query_of_xappy. Qed.

(** X2: [Query(q)] shares with [q] the engine query, the references, the
    connection, the text and the search parameters, holds the ranges of
    [q] without repetition, and has neither operator nor query id; a copy
    of the copy is the copy. *)
Theorem Query_copy q :
  ∃ c, Query.Query_of (inr q) = Ok c
       ∧ Query.Query_of (inr c) = Ok c
       ∧ Query._get_xapian_query c = Query._get_xapian_query q
       ∧ Query.__refs c = Query.__refs q
       ∧ Query.__conn c = Query.__conn q
       ∧ Query.evalable_repr c = Query.evalable_repr q
       ∧ Query.__search_params c = Query.__search_params q
       ∧ Query.__op c = None
       ∧ Query._get_queryid c = None
       ∧ NoDup (Query._get_ranges c)
       ∧ ∀ x, x ∈ Query._get_ranges c ↔ x ∈ Query._get_ranges q.
Proof.
  exists (Query.copy_of q). rewrite !Query_of_inr.
  assert (NoDup (Query.merge_ranges [] (Query.__ranges q))) as Hnd
    by apply merge_ranges_NoDup, NoDup_nil_2.
  split_and!; try done.
  - unfold Query.copy_of at 1. simpl.
    rewrite (merge_ranges_NoDup_app _ []) by done. done.
  - intros x. unfold Query._get_ranges. simpl.
    rewrite merge_ranges_elem, elem_of_nil. tauto.
Qed.

(** X3: the constructor copies a Query to the connection given as
    [_conn] unless the Query carries a different one, in which case it
    raises the [ValueError] of mismatched connections; a text given as
    [_serialised] replaces that of the Query. *)
Theorem init_copy_connection q refs (conn : option SearchConnection) ranges
    serialised queryid :
  (∀ k k', conn = Some k → Query.__conn q = Some k' → k ≠ k' →
     Query.__init__ (Some (inr q)) refs conn ranges serialised queryid
     = Raise ConnectionMismatchError)
  ∧ (Query.one_connection [conn; Query.__conn q] →
     ∃ c, Query.__init__ (Some (inr q)) refs conn ranges serialised queryid
          = Ok c
          ∧ Query.__conn c = match conn with
                             | Some k => Some k
                             | None => Query.__conn q
                             end
          ∧ Query.evalable_repr c = match serialised with
                                    | Some s => Some s
                                    | None => Query.evalable_repr q
                                    end
          ∧ Query.__search_params c = Query.__search_params q
          ∧ Query._get_queryid c = queryid).
Proof.
  unfold Query.__init__. simpl. split.
  - intros k k' -> Hq Hne. unfold Query.__merge_params. simpl. rewrite Hq.
    case_decide as Hd; [done|]. congruence.
  - intros Hk. rewrite merge_params_compatible.
    2:{ simpl. intros k k' -> Hq. apply Hk; rewrite ?Hq.
        - left.
        - right. left. }
    eexists. split; [done|]. simpl. by destruct serialised.
Qed.

Lemma one_connection_all (k0 : SearchConnection)
    (l : list (option SearchConnection)) :
  Forall (λ x, x = None ∨ x = Some k0) l → Query.one_connection l.
Proof.
  intros Hall k k' Hk Hk'. rewrite Forall_forall in Hall.
  destruct (Hall _ Hk) as [?|?], (Hall _ Hk') as [?|?]; congruence.
Qed.

(** *** Composites *)

(** What the third loop of [compose] leaves in [xapqs] and [result]. *)
Lemma compose_loop_state (fl : list Query.operand) xs ss res xs' ss' res' :
  for_each Query.compose_step (xs, ss, res) fl = Ok (xs', ss', res') →
  xs' = xs ++ (Query.xapian_of <$> fl)
  ∧ Query.__refs res' = Query.__refs res ++ mjoin (Query.refs_of <$> fl)
  ∧ Query.__cacheinfo res' = Query.__cacheinfo res
  ∧ Query.__query res' = Query.__query res
  ∧ (NoDup (Query.__ranges res) → NoDup (Query.__ranges res'))
  ∧ (∀ x, x ∈ Query.__ranges res'
          ↔ x ∈ Query.__ranges res ∨ ∃ o, o ∈ fl ∧ x ∈ Query.ranges_of o)
  ∧ (∀ k, Query.__conn res' = Some k
          ↔ Query.__conn res = Some k ∨ Some k ∈ Query.conn_of <$> fl).
Proof.
  revert xs ss res. induction fl as [|[x|q] fl IH]; intros xs ss res; simpl.
  - intros [= <- <- <-]. rewrite !app_nil_r. split_and!; try done.
    + intros x. split; [by left|]. intros [?|(o & Ho & _)]; [done|].
      by apply elem_of_nil in Ho.
    + intros k. rewrite elem_of_nil. tauto.
  - intros Hl. apply IH in Hl as (-> & -> & -> & -> & Hnd & Hin & Hk).
    rewrite <- app_assoc. split_and!; try done.
    + intros y. rewrite Hin. split; intros [?|(o & Ho & Hy)]; auto.
      * right. exists o. split; [by right|done].
      * apply elem_of_cons in Ho as [->|Ho]; [by apply elem_of_nil in Hy|].
        right. by exists o.
    + intros k. rewrite Hk, elem_of_cons. simpl. split; [tauto|].
      intros [?|[?|?]]; [tauto|discriminate|tauto].
  - destruct (Query.__merge_params res q) as [res1|e] eqn:Hm; simpl; [|done].
    destruct (merge_params_Ok _ _ _ Hm) as (Hr1 & Hrefs & Hq & _).
    destruct (merge_params_Ok_conn _ _ _ Hm) as (Hc1 & Hci & Hcompat).
    intros Hl. apply IH in Hl as (-> & -> & -> & -> & Hnd & Hin & Hk).
    rewrite Hrefs, Hci, Hq, <- !app_assoc. split_and!; try done.
    + intros Hres. apply Hnd. rewrite Hr1. by apply merge_ranges_NoDup.
    + intros y. rewrite Hin, Hr1, merge_ranges_elem.
      split.
      * intros [[?|?]|(o & Ho & Hy)]; auto.
        -- right. exists (inr q). split; [left|done].
        -- right. exists o. split; [by right|done].
      * intros [?|(o & Ho & Hy)]; auto.
        apply elem_of_cons in Ho as [->|Ho]; [by left; right|].
        right. by exists o.
    + intros k. rewrite Hk, Hc1, elem_of_cons. split.
      * intros [Hres|?]; [|by right; right].
        destruct (Query.__conn res) as [k0|]; [by left|].
        right. by left.
      * intros [Hres|[Hq'|?]]; [left; by rewrite Hres| |by right].
        left. destruct (Query.__conn res) as [k0|] eqn:E; [|done].
        f_equal. by apply (Hcompat k0 k).
Qed.

(** The third loop can only raise the error of mismatched connections. *)
Lemma compose_loop_Raise (fl : list Query.operand) xs ss res e :
  for_each Query.compose_step (xs, ss, res) fl = Raise e →
  e = ConnectionMismatchError.
Proof.
  revert xs ss res. induction fl as [|[x|q] fl IH]; intros xs ss res; simpl.
  - done.
  - apply IH.
  - destruct (Query.__merge_params res q) as [res1|e'] eqn:Hm; simpl.
    + apply IH.
    + intros [= <-]. by apply merge_params_Raise in Hm.
Qed.

Lemma check_queries_Raise_inv (l : list Query.operand) e :
  Query.check_queries l = Raise e → e = CompositionError.
Proof.
  unfold Query.check_queries. induction l as [|[x|q] l IH]; simpl; [done|done|].
  destruct (check_composable_cases q) as [-> | ->]; simpl; [done|congruence].
Qed.

Lemma flatten_one_Raise op (o : Query.operand) e :
  Query.flatten_one op o = Raise e →
  e = TypeError "'NoneType' object is not iterable".
Proof.
  destruct o as [x|q]; simpl; [done|].
  case_decide; [|done]. destruct (Query.__subqs q); congruence.
Qed.

Lemma flatten_cons op (o : Query.operand) (l : list Query.operand) :
  Query.flatten op (o :: l)
  = (f1 ← Query.flatten_one op o; f2 ← Query.flatten op l; Ok (f1 ++ f2)).
Proof.
  change (o :: l) with ([o] ++ l). by rewrite flatten_app, flatten_singleton.
Qed.

Lemma flatten_Raise op (l : list Query.operand) e :
  Query.flatten op l = Raise e →
  e = TypeError "'NoneType' object is not iterable".
Proof.
  induction l as [|o l IH]; [done|]. rewrite flatten_cons.
  destruct (Query.flatten_one op o) as [f1|e1] eqn:E1; simpl.
  - destruct (Query.flatten op l) as [f2|e2]; simpl; [done|].
    intros [= <-]. by apply IH.
  - intros [= <-]. by apply flatten_one_Raise in E1.
Qed.

Lemma compose_serialised_Raise op (texts : list string) e :
  Query.compose_serialised op texts = Raise e →
  e = KeyError op ∧ op ≠ OP_AND ∧ op ≠ OP_OR.
Proof.
  destruct texts as [|s1 [|s2 [|s3 texts]]], op; simpl; try done;
    by intros [= <-].
Qed.

(** The attributes of a composite of two operands or more. *)
Lemma compose_Ok_state op (queries : list (option Query.operand))
    (x1 x2 : Query.operand) (rest : list Query.operand) r :
  omap id queries = x1 :: x2 :: rest →
  Query.compose op queries = Ok r →
  ∃ fl, Query.flatten op (x1 :: x2 :: rest) = Ok fl
        ∧ Query.__op r = Some op
        ∧ Query.__subqs r = Some fl
        ∧ Query._get_xapian_query r
          = xapian_Query_multi op (Query.xapian_of <$> fl)
        ∧ Query.is_composable r = true
        ∧ Query._get_queryid r = None
        ∧ Query.__refs r = mjoin (Query.refs_of <$> fl)
        ∧ NoDup (Query._get_ranges r)
        ∧ (∀ x, x ∈ Query._get_ranges r
                ↔ ∃ o, o ∈ fl ∧ x ∈ Query.ranges_of o)
        ∧ (∀ k, Query.__conn r = Some k ↔ Some k ∈ Query.conn_of <$> fl).
Proof.
  intros E Hr.
  destruct (compose_Ok op queries x1 x2 rest r E Hr)
    as (fl & _ & Hfl & Hop & Hsub & Hpar & _).
  exists fl. rewrite (compose_many _ _ _ _ _ E) in Hr.
  apply bind_Ok in Hr as ([] & _ & Hr). rewrite Hfl, Query__Ok in Hr.
  simpl in Hr. apply bind_Ok in Hr as ([[xs ss] res] & Hloop & Hr).
  apply compose_loop_state in Hloop
    as (-> & Hrefs & Hci & _ & Hnd & Hin & Hk).
  simpl in *.
  assert (∃ text, r = Query._set_serialised
                        (Query.set_query
                           (xapian_Query_multi op (Query.xapian_of <$> fl)) res)
                        text) as [text ->].
  { destruct ss as [texts|]; simpl in Hr.
    - apply bind_Ok in Hr as (s & _ & [= <-]). by eexists.
    - injection Hr as <-. exists (Query.__serialised res). by destruct res. }
  unfold Query._get_ranges, Query._get_queryid, Query._get_xapian_query.
  simpl in *. split_and!; try done.
  - by apply is_composable_no_params.
  - apply Hnd, NoDup_nil_2.
  - intros x. rewrite Hin, elem_of_nil. tauto.
  - intros k. rewrite Hk. split; [by intros [?|?]|tauto].
Qed.

(** X4: a composite of two operands or more has the operator and, as
    operands, the flattened list; its engine query combines those of the
    flattened operands in order; it is composable and has no query id; it
    holds their references in order and exactly their ranges, each once;
    and its connection is the one found among them, if any. *)
Theorem compose_result op (queries : list (option Query.operand))
    (x1 x2 : Query.operand) (rest : list Query.operand) r :
  omap id queries = x1 :: x2 :: rest →
  Query.compose op queries = Ok r →
  ∃ fl, Query.flatten op (x1 :: x2 :: rest) = Ok fl
        ∧ Query.__op r = Some op
        ∧ Query.__subqs r = Some fl
        ∧ Query._get_xapian_query r
          = xapian_Query_multi op (Query.xapian_of <$> fl)
        ∧ Query.is_composable r = true
        ∧ Query._get_queryid r = None
        ∧ Query.__refs r = mjoin (Query.refs_of <$> fl)
        ∧ NoDup (Query._get_ranges r)
        ∧ (∀ x, x ∈ Query._get_ranges r
                ↔ ∃ o, o ∈ fl ∧ x ∈ Query.ranges_of o)
        ∧ (∀ k, Query.__conn r = Some k ↔ Some k ∈ Query.conn_of <$> fl).
Proof. apply compose_Ok_state. Qed.

(** X5: [compose] on two operands or more that pass the composability
    check raises the [ValueError] of mismatched connections when two of
    the flattened operands carry different connections. *)
Theorem compose_connection_mismatch op (queries : list (option Query.operand))
    (x1 x2 : Query.operand) (rest fl : list Query.operand)
    (k k' : SearchConnection) :
  omap id queries = x1 :: x2 :: rest →
  Query.check_queries (x1 :: x2 :: rest) = Ok tt →
  Query.flatten op (x1 :: x2 :: rest) = Ok fl →
  Some k ∈ Query.conn_of <$> fl → Some k' ∈ Query.conn_of <$> fl → k ≠ k' →
  Query.compose op queries = Raise ConnectionMismatchError.
Proof.
  intros E Hcheck Hfl Hk Hk' Hne. rewrite (compose_many _ _ _ _ _ E).
  rewrite Hcheck, Hfl, Query__Ok. simpl.
  destruct (for_each Query.compose_step _ fl) as [[[xs ss] res]|e] eqn:Hloop.
  - apply compose_loop_state in Hloop as (_ & _ & _ & _ & _ & _ & Hconn).
    destruct Hne.
    assert (Query.__conn res = Some k) as Hr by (apply Hconn; by right).
    assert (Query.__conn res = Some k') as Hr' by (apply Hconn; by right).
    congruence.
  - apply compose_loop_Raise in Hloop as ->. done.
Qed.

(** X6: on a list whose entries are [None], engine queries and [Query]
    objects, [compose] raises nothing but the error of the composability
    check, the error of mismatched connections, the [TypeError] of an
    operand that has the operator without operands, and, for an
    operator other than [OP_AND] and [OP_OR], the [KeyError] of the
    operator.  Given no operand or one (entries that are [None] not
    counted) it raises nothing: it returns [Query()], or [Query(q)] for
    the operand [q]. *)
Theorem compose_errors op (queries : list (option Query.operand)) :
  (∀ e,
     Query.compose op queries = Raise e →
     e = CompositionError
     ∨ e = ConnectionMismatchError
     ∨ e = TypeError "'NoneType' object is not iterable"
     ∨ (e = KeyError op ∧ op ≠ OP_AND ∧ op ≠ OP_OR))
  ∧ ((length (omap id queries) ≤ 1)%nat →
     ∃ r, Query.compose op queries = Ok r
          ∧ (omap id queries = [] → r = Query.fresh)
          ∧ (∀ x, omap id queries = [x] → Query.Query_of x = Ok r)).
Proof.
  split.
  2:{ intros Hlen. unfold Query.compose.
      destruct (omap id queries) as [|x1 [|x2 rest]] eqn:E;
        [|..|simpl in Hlen; lia].
      - exists Query.fresh. by split_and!.
      - destruct x1 as [x|q].
        + eexists. split_and!; [reflexivity|done|]. by intros ? [= <-].
        + exists (Query.copy_of q). rewrite Query_of_inr.
          split_and!; [done|done|]. intros ? [= <-]. apply Query_of_inr. }
  intros e.
  destruct (omap id queries) as [|x1 [|x2 rest]] eqn:E.
  - unfold Query.compose. by rewrite E.
  - unfold Query.compose. rewrite E. destruct x1 as [x|q]; [done|].
    by rewrite Query_of_inr.
  - rewrite (compose_many _ _ _ _ _ E), Query__Ok.
    destruct (Query.check_queries _) as [[]|e1] eqn:Hcheck; simpl.
    2:{ intros [= <-]. left. by apply check_queries_Raise_inv in Hcheck. }
    destruct (Query.flatten op _) as [fl|e1] eqn:Hfl; simpl.
    2:{ intros [= <-]. right; right; left. by apply flatten_Raise in Hfl. }
    destruct (for_each Query.compose_step _ fl) as [[[xs ss] res]|e1] eqn:Hloop;
      simpl.
    2:{ intros [= <-]. right; left. by apply compose_loop_Raise in Hloop. }
    destruct ss as [texts|]; simpl; [|done].
    destruct (Query.compose_serialised op texts) as [s|e1] eqn:Hs; simpl;
      [done|].
    intros [= <-]. right; right; right. by apply compose_serialised_Raise in Hs.
Qed.

Lemma omap_id_Some {A} (l : list (option A)) :
  omap id (Some <$> omap id l) = omap id l.
Proof.
  induction l as [|[x|] l IH]; simpl; [done|by f_equal|done].
Qed.

(** X7: entries of [queries] that are [None] do not count: [compose]
    returns what it returns without them, and the empty query [Query()]
    when no other entry is left. *)
Theorem compose_None op (queries : list (option Query.operand)) (n : nat) :
  Query.compose op queries = Query.compose op (Some <$> omap id queries)
  ∧ Query.compose op (replicate n None) = Ok Query.fresh
  ∧ Query.compose op (replicate n None ++ queries) = Query.compose op queries.
Proof.
  assert (∀ l1 l2 : list (option Query.operand),
            omap id l1 = omap id l2 →
            Query.compose op l1 = Query.compose op l2) as Hsame.
  { intros l1 l2 E. unfold Query.compose. by rewrite E. }
  assert (omap id (replicate n (@None Query.operand)) = []) as Hn.
  { induction n as [|n IH]; simpl; [done|]. apply IH. }
  split_and!.
  - apply Hsame. by rewrite omap_id_Some.
  - unfold Query.compose. by rewrite Hn.
  - apply Hsame. by rewrite omap_app, Hn.
Qed.

(** *** Texts of composites *)

Lemma flatten_one_other_op op q :
  Query.__op q ≠ Some op → Query.flatten_one op (inr q) = Ok [inr q].
Proof. intros Hop. unfold Query.flatten_one. by rewrite decide_False. Qed.

Lemma flatten_one_same_op op q (subqs : list Query.operand) :
  Query.__op q = Some op → Query.__subqs q = Some subqs →
  Query.flatten_one op (inr q) = Ok subqs.
Proof.
  intros Hop Hsub. unfold Query.flatten_one.
  by rewrite decide_True, Hsub.
Qed.

Lemma check_queries_cons q (l : list Query.operand) :
  Query.is_composable q = true →
  Query.check_queries (inr q :: l) = Query.check_queries l.
Proof.
  intros Hq. unfold Query.check_queries. simpl.
  by rewrite check_composable_Ok.
Qed.

(** [compose] on two composable queries of one connection, neither a
    composite of the operator. *)
Lemma compose_two_nodes op a b :
  op = OP_AND ∨ op = OP_OR →
  Query.is_composable a = true → Query.is_composable b = true →
  Query.__op a ≠ Some op → Query.__op b ≠ Some op →
  Query.one_connection [Query.__conn a; Query.__conn b] →
  ∃ r, Query.compose op [Some (inr a); Some (inr b)] = Ok r
       ∧ Query.__op r = Some op
       ∧ Query.__subqs r = Some [inr a; inr b]
       ∧ Query.__search_params r = ∅
       ∧ (∀ k, Query.__conn r = Some k
               ↔ Some k ∈ [Query.__conn a; Query.__conn b])
       ∧ (∀ sa sb,
            Query.__serialised a = Some sa → Query.__serialised b = Some sb →
            ∃ sym, Query.infix_str op = Ok sym
                   ∧ Query.__serialised r
                     = Some ("(" +:+ join sym [sa; sb] +:+ ")")).
Proof.
  intros Hop Ha Hb Hoa Hob Hk.
  assert (Query.check_queries [inr a; inr b] = Ok tt) as Hcheck
    by by rewrite !check_queries_cons.
  assert (Query.flatten op [inr a; inr b] = Ok [inr a; inr b]) as Hfl
    by by rewrite !flatten_cons, !flatten_one_other_op.
  destruct (compose_returns op [Some (inr a); Some (inr b)] (inr a) (inr b) []
              [inr a; inr b] Hop eq_refl Hcheck Hfl Hk) as [r Hr].
  exists r. split; [done|].
  destruct (compose_Ok op [Some (inr a); Some (inr b)]
              (inr a) (inr b) [] r eq_refl Hr)
    as (fl & _ & Hfl' & Hopr & Hsub & Hpar & Htext).
  destruct (compose_Ok_state op [Some (inr a); Some (inr b)]
              (inr a) (inr b) [] r eq_refl Hr)
    as (fl' & Hfl'' & _ & _ & _ & _ & _ & _ & _ & _ & Hconn).
  rewrite Hfl in Hfl', Hfl''. injection Hfl' as <-. injection Hfl'' as <-.
  split_and!; try done.
  intros sa sb Hsa Hsb. unfold Query.known_texts in Htext. simpl in Htext.
  rewrite Hsa, Hsb in Htext. simpl in Htext.
  destruct Htext as (s & Hs & Hser). rewrite Hser.
  destruct Hop as [-> | ->]; simpl in Hs; injection Hs as <-; by eexists.
Qed.

(** X8: for two composable queries of texts [sa] and [sb] that do not
    carry two different connections, neither a composite of the
    operator, [compose] with [OP_AND] or [OP_OR] (and so [&] and [|])
    returns a composite of the two whose text is [(sa & sb)] or
    [(sa | sb)]. *)
Theorem compose_pair_text op a b (sa sb : string) :
  op = OP_AND ∨ op = OP_OR →
  Query.is_composable a = true → Query.is_composable b = true →
  Query.__op a ≠ Some op → Query.__op b ≠ Some op →
  Query.one_connection [Query.__conn a; Query.__conn b] →
  Query.evalable_repr a = Some sa → Query.evalable_repr b = Some sb →
  ∃ r, Query.compose op [Some (inr a); Some (inr b)] = Ok r
       ∧ Query.__subqs r = Some [inr a; inr b]
       ∧ Query.evalable_repr r
         = Some ("(" +:+ join (if decide (op = OP_AND) then " & " else " | ")
                           [sa; sb] +:+ ")").
Proof.
  intros Hop Ha Hb Hoa Hob Hk Hsa Hsb.
  destruct (compose_two_nodes op a b Hop Ha Hb Hoa Hob Hk)
    as (r & Hr & _ & Hsub & _ & _ & Htext).
  destruct (Htext sa sb Hsa Hsb) as (sym & Hsym & Hser).
  exists r. split_and!; try done.
  unfold Query.evalable_repr. rewrite Hser.
  destruct Hop as [-> | ->]; simpl in Hsym; by injection Hsym as <-.
Qed.

(** X9: for leaf-like composable queries [a], [b], [c] (no operator) of
    texts [sa], [sb], [sc] and one connection, both operators being
    [OP_AND] or [OP_OR]: composing [c] with the composite of [a] and [b]
    under the same operator gives the three operands and the text of a
    call of [Query.compose] on them; under the other operator it gives
    two operands, the composite and [c], and the nested infix text. *)
Theorem compose_nested_text op op' a b c (sa sb sc : string) :
  op = OP_AND ∨ op = OP_OR → op' = OP_AND ∨ op' = OP_OR →
  Query.is_composable a = true → Query.is_composable b = true →
  Query.is_composable c = true →
  Query.__op a = None → Query.__op b = None → Query.__op c = None →
  Query.one_connection [Query.__conn a; Query.__conn b; Query.__conn c] →
  Query.evalable_repr a = Some sa → Query.evalable_repr b = Some sb →
  Query.evalable_repr c = Some sc →
  ∃ inner r sym sym' opstr,
    Query.infix_str op = Ok sym ∧ Query.infix_str op' = Ok sym'
    ∧ Query.operator_str op = Ok opstr
    ∧ Query.compose op' [Some (inr a); Some (inr b)] = Ok inner
    ∧ Query.compose op [Some (inr inner); Some (inr c)] = Ok r
    ∧ if decide (op' = op) then
        Query.__subqs r = Some [inr a; inr b; inr c]
        ∧ Query.evalable_repr r
          = Some ("Query.compose(" +:+ opstr +:+ ", ("
                    +:+ join ", " [sa; sb; sc] +:+ "))")
      else
        Query.__subqs r = Some [inr inner; inr c]
        ∧ Query.evalable_repr r
          = Some ("(" +:+ join sym ["(" +:+ join sym' [sa; sb] +:+ ")"; sc]
                    +:+ ")").
Proof.
  intros Hop Hop' Ha Hb Hc Hoa Hob Hoc Hk Hsa Hsb Hsc.
  unfold Query.evalable_repr in *.
  assert (Query.one_connection [Query.__conn a; Query.__conn b]) as Hkab.
  { revert Hk. apply one_connection_weaken. intros k.
    rewrite !elem_of_cons. tauto. }
  destruct (compose_two_nodes op' a b Hop') as
    (inner & Hinner & Hopi & Hsubi & Hpari & Hconni & Htexti);
    [done|done|congruence|congruence|done|].
  destruct (Htexti sa sb Hsa Hsb) as (sym' & Hsym' & Hseri).
  assert (Query.is_composable inner = true) as Hci
    by by apply is_composable_no_params.
  assert (∃ sym, Query.infix_str op = Ok sym) as [sym Hsym]
    by (destruct Hop as [-> | ->]; by eexists).
  assert (∃ opstr, Query.operator_str op = Ok opstr) as [opstr Hopstr]
    by (destruct Hop as [-> | ->]; by eexists).
  exists inner.
  assert (Query.check_queries [inr inner; inr c] = Ok tt) as Hcheck
    by by rewrite !check_queries_cons.
  destruct (decide (op' = op)) as [->|Hne].
  - assert (Query.flatten op [inr inner; inr c] = Ok [inr a; inr b; inr c])
      as Hfl.
    { rewrite !flatten_cons, (flatten_one_same_op op inner _ Hopi Hsubi).
      rewrite flatten_one_other_op by congruence. done. }
    destruct (compose_returns op [Some (inr inner); Some (inr c)]
                (inr inner) (inr c) [] _ Hop eq_refl Hcheck Hfl Hk) as [r Hr].
    destruct (compose_Ok op [Some (inr inner); Some (inr c)]
              (inr inner) (inr c) [] r eq_refl Hr)
      as (fl & _ & Hfl' & _ & Hsub & _ & Htext).
    rewrite Hfl in Hfl'. injection Hfl' as <-.
    unfold Query.known_texts in Htext. simpl in Htext.
    rewrite Hsa, Hsb, Hsc in Htext. simpl in Htext.
    destruct Htext as (s & Hs & Hser). rewrite Hopstr in Hs.
    injection Hs as <-.
    exists r, sym, sym', opstr. by split_and!.
  - assert (Query.flatten op [inr inner; inr c] = Ok [inr inner; inr c])
      as Hfl.
    { rewrite !flatten_cons, !flatten_one_other_op by congruence. done. }
    assert (Query.one_connection
              (Query.conn_of <$> [inr inner; inr c])) as Hk'.
    { revert Hk. apply one_connection_weaken. intros k. simpl.
      rewrite !elem_of_cons, !elem_of_nil. intros [Hin|[Hin|[]]]; [|tauto].
      symmetry in Hin. apply Hconni in Hin.
      rewrite !elem_of_cons, elem_of_nil in Hin. tauto. }
    destruct (compose_returns op [Some (inr inner); Some (inr c)]
                (inr inner) (inr c) [] _ Hop eq_refl Hcheck Hfl Hk') as [r Hr].
    destruct (compose_Ok op [Some (inr inner); Some (inr c)]
              (inr inner) (inr c) [] r eq_refl Hr)
      as (fl & _ & Hfl' & _ & Hsub & _ & Htext).
    rewrite Hfl in Hfl'. injection Hfl' as <-.
    unfold Query.known_texts in Htext. simpl in Htext.
    rewrite Hseri, Hsc in Htext. simpl in Htext.
    destruct Htext as (s & Hs & Hser). rewrite Hsym in Hs.
    injection Hs as <-.
    exists r, sym, sym', opstr. by split_and!.
Qed.

(** X10: [compose] with an operator other than [OP_AND] and [OP_OR] on
    two composable queries of known texts and one connection, neither a
    composite of the operator, raises the [KeyError] of the operator:
    there is no infix symbol for it. *)
Theorem compose_other_operator op a b (sa sb : string) :
  op ≠ OP_AND → op ≠ OP_OR →
  Query.is_composable a = true → Query.is_composable b = true →
  Query.__op a ≠ Some op → Query.__op b ≠ Some op →
  Query.one_connection [Query.__conn a; Query.__conn b] →
  Query.evalable_repr a = Some sa → Query.evalable_repr b = Some sb →
  Query.compose op [Some (inr a); Some (inr b)] = Raise (KeyError op).
Proof.
  intros Hna Hno Ha Hb Hoa Hob Hk Hsa Hsb.
  rewrite (compose_many op (inr a) (inr b) []
             [Some (inr a); Some (inr b)] eq_refl).
  rewrite !check_queries_cons by done.
  rewrite !flatten_cons, !flatten_one_other_op by done.
  rewrite Query__Ok. unfold Query.check_queries. simpl.
  destruct (compose_loop_total [inr a; inr b] [] (Some [])
              (Query.set_op_subqs op [inr a; inr b] Query.fresh))
    as [[[xs ss] res] Hloop].
  { revert Hk. apply one_connection_weaken. intros k. simpl.
    rewrite !elem_of_cons. intros [?|?]; [done|tauto]. }
  pose proof Hloop as Hloop'. simpl in Hloop'. rewrite Hloop'. simpl.
  apply compose_loop_Ok in Hloop as (-> & _).
  unfold Query.known_texts. simpl.
  unfold Query.evalable_repr in *. rewrite Hsa, Hsb. simpl.
  by destruct op.
Qed.

(** *** Pairwise operators and scaling *)

(** X11: for composable queries [a] and [b] of texts [sa] and [sb] that
    do not carry two different connections, the pairwise operator of
    method name [f] ([.xor], [.and_not], [.filter] or [.adjust]) returns
    a query of text [sa f (sb)] over the engine query pairing those of
    [a] and [b]; the result is composable, is no composite for [compose]
    to flatten, carries the connection found in [a] or [b] and holds
    exactly the ranges of [a] and of [b]. *)
Theorem combine_with_result a b op (sa sb f : string) :
  Query.funcname op = Ok f →
  Query.is_composable a = true → Query.is_composable b = true →
  Query.one_connection [Query.__conn a; Query.__conn b] →
  Query.evalable_repr a = Some sa → Query.evalable_repr b = Some sb →
  ∃ r, Query.__combine_with a op (inr b) = Ok r
       ∧ Query.evalable_repr r = Some (join "" [sa; f; "(" +:+ sb +:+ ")"])
       ∧ Query._get_xapian_query r
         = xapian_Query_pair op (Query._get_xapian_query a)
                                (Query._get_xapian_query b)
       ∧ Query.is_composable r = true
       ∧ Query.__op r = None
       ∧ (∀ k, Query.__conn r = Some k
               ↔ Some k ∈ [Query.__conn a; Query.__conn b])
       ∧ (∀ x, x ∈ Query._get_ranges r
               ↔ x ∈ Query._get_ranges a ∨ x ∈ Query._get_ranges b).
Proof.
  unfold Query.evalable_repr, Query._get_ranges, Query._get_xapian_query.
  intros Hf Ha Hb Hk Hsa Hsb. unfold Query.__combine_with.
  rewrite Query_of_xappy. simpl.
  rewrite !check_composable_Ok by done. simpl.
  rewrite merge_params_compatible.
  2:{ simpl. intros k k' Hka Hkb. apply Hk; rewrite ?Hka, ?Hkb.
      - left.
      - right. left. }
  simpl. rewrite Hsa, Hsb, Hf. simpl. eexists. split; [done|]. simpl.
  split_and!; try done.
  - intros k. rewrite !elem_of_cons, elem_of_nil.
    destruct (Query.__conn a) as [ka|] eqn:Ea.
    + split; [intros [= <-]; by left|].
      intros [[= <-]|[Hkb|[]]]; [done|]. f_equal. apply Hk.
      * left.
      * rewrite Hkb. right. left.
    + split; [intros ->; right; by left|]. by intros [?|[?|[]]].
  - intros x. rewrite !merge_ranges_elem, elem_of_nil. tauto.
Qed.

(** X12: scaling a composable query by a number returns a query over the
    scaled engine query, of text [(s * repr)] when the query has the
    text [s] and of the text of the empty query when it has none; the
    result is composable, keeps the connection and holds the ranges of
    the query. Scaling by another object returns [NotImplemented]. *)
Theorem mul_result self (x : number) :
  Query.is_composable self = true →
  (∃ r, Query.__mul__ self (Query.a_number x) = Ok (Value r)
        ∧ Query.__rmul__ self (Query.a_number x) = Ok (Value r)
        ∧ Query.mul self (Query.a_number x) = Ok r
        ∧ Query._get_xapian_query r
          = xapian_Query_scale (Query._get_xapian_query self) x
        ∧ Query.evalable_repr r
          = match Query.evalable_repr self with
            | Some s => Some ("(" +:+ s +:+ " * " +:+ repr_number x +:+ ")")
            | None => Some "Query()"
            end
        ∧ Query.is_composable r = true
        ∧ Query.__conn r = Query.__conn self
        ∧ (∀ y, y ∈ Query._get_ranges r ↔ y ∈ Query._get_ranges self))
  ∧ Query.__mul__ self Query.not_a_number = Ok NotImplemented.
Proof.
  unfold Query.evalable_repr, Query._get_ranges, Query._get_xapian_query.
  intros Hq. unfold Query.mul, Query.__rmul__, Query.__mul__.
  rewrite Query__Ok. simpl. rewrite merge_params_no_conn by done. simpl.
  rewrite check_composable_Ok by done. simpl. split; [|done].
  eexists. split; [done|]. split; [done|]. split; [done|].
  destruct (Query.__serialised self) as [s|]; simpl;
    split_and!; try done;
    intros y; rewrite merge_ranges_elem, elem_of_nil; tauto.
Qed.

(** *** Facets *)

Lemma lookup_foldl_insert {V} (v : V) (l : list string) (m : gmap string V)
    (f : string) :
  foldl (λ m f, <[f := v]> m) m l !! f
  = if decide (f ∈ l) then Some v else m !! f.
Proof.
  revert m. induction l as [|g l IH]; intros m; simpl.
  - done.
  - rewrite IH. destruct (decide (f ∈ l)) as [Hl|Hl].
    + by rewrite decide_True by by right.
    + destruct (decide (f = g)) as [->|Hne].
      * rewrite decide_True by left. apply lookup_insert_eq.
      * rewrite decide_False.
        -- by apply lookup_insert_ne.
        -- intros Hin. apply elem_of_cons in Hin as [?|?]; done.
Qed.

(** X13: on a query of text [s] whose facets, if any, were asked by
    [get_facets], [get_facets] returns a query over the same engine
    query and connection whose facets spec is not inverted, maps every
    named field to [(checkatleast, desired_num_of_categories)] and every
    other field as before; the other search parameters are kept, and
    the text is [s] followed by the call. *)
Theorem get_facets_result self fieldnames checkatleast desired (s : string) :
  Query.evalable_repr self = Some s →
  invert (Query.setdefault_facets (Query.__search_params self) false) = false →
  ∃ r spec,
    Query.get_facets self fieldnames checkatleast desired = Ok r
    ∧ Query.__search_params r !! "facets" = Some spec
    ∧ invert spec = false
    ∧ (∀ f, f ∈ fieldnames → fields spec !! f = Some (checkatleast, desired))
    ∧ (∀ f, f ∉ fieldnames →
            fields spec !! f
            = fields (Query.setdefault_facets (Query.__search_params self)
                        false) !! f)
    ∧ (∀ key, key ≠ "facets" →
              Query.__search_params r !! key
              = Query.__search_params self !! key)
    ∧ Query.evalable_repr r
      = Some (join "" [s; ".get_facets("; repr_tuple repr_str fieldnames;
                       ", "; repr_int_or_None checkatleast; ", ";
                       repr_int_or_None desired; ")"])
    ∧ Query._get_xapian_query r = Query._get_xapian_query self
    ∧ Query.__conn r = Query.__conn self.
Proof.
  unfold Query.evalable_repr, Query._get_xapian_query.
  intros Hs Hinv. unfold Query.get_facets. rewrite Query_of_xappy. simpl.
  rewrite Hinv, Hs. simpl. eexists.
  exists {| invert := false;
            fields :=
              foldl (λ fields fieldname,
                       <[fieldname := (checkatleast, desired)]> fields)
                    (fields (Query.setdefault_facets
                               (Query.__search_params self) false))
                    fieldnames |}.
  split; [done|]. simpl. split_and!; try done.
  - apply lookup_insert_eq.
  - intros f Hf. simpl. rewrite lookup_foldl_insert. by rewrite decide_True.
  - intros f Hf. simpl. rewrite lookup_foldl_insert. by rewrite decide_False.
  - intros key Hkey. by rewrite lookup_insert_ne.
Qed.

(** X14: [get_facets] raises its [ValueError] on a query whose facets
    spec is inverted, and otherwise, on a query without text, the
    [TypeError] of joining [None]. *)
Theorem get_facets_errors self fieldnames checkatleast desired :
  (invert (Query.setdefault_facets (Query.__search_params self) false) = true →
   Query.get_facets self fieldnames checkatleast desired
   = Raise (ValueError "get_facets() called on Query for which get_facets_except() had already been called"))
  ∧ (invert (Query.setdefault_facets (Query.__search_params self) false)
     = false →
     Query.evalable_repr self = None →
     Query.get_facets self fieldnames checkatleast desired
     = Raise (TypeError "sequence item 0: expected str instance, NoneType found")).
Proof.
  unfold Query.evalable_repr, Query.get_facets. rewrite Query_of_xappy. simpl.
  split.
  - by intros ->.
  - intros -> ->. done.
Qed.

(** *** Normalisation and cached results *)

Variable SearchConnection_get_max_possible_weight :
  SearchConnection → Query.t → number.
Variable number_1 : number.
Variable SearchConnection_query_cached :
  SearchConnection → Z → Query.operand.

Abbreviation norm := (Query.norm SearchConnection_get_max_possible_weight).
Abbreviation merge_with_cached :=
  (Query.merge_with_cached SearchConnection_get_max_possible_weight number_1
     SearchConnection_query_cached).

(** X15: on a composable query of text [s] that is not empty and whose
    connection reports a positive maximum weight [w], [norm] returns a
    query over the engine query scaled by [maxweight / w], of text
    [s.norm()] when [maxweight == 1.0] and [s.norm(repr)] otherwise, on
    the same connection. *)
Theorem norm_positive_weight self (maxweight : number) (k : SearchConnection)
    (s : string) :
  Query.is_composable self = true → Query.empty self = false →
  Query.__conn self = Some k →
  number_gt_0 (SearchConnection_get_max_possible_weight k self) = true →
  Query.evalable_repr self = Some s →
  ∃ r, norm self maxweight = Ok r
       ∧ Query._get_xapian_query r
         = xapian_Query_scale (Query._get_xapian_query self)
             (number_div maxweight
                (SearchConnection_get_max_possible_weight k self))
       ∧ Query.evalable_repr r
         = Some (if number_eq_1 maxweight then s +:+ ".norm()"
                 else (s +:+ ".norm(") +:+ repr_number maxweight +:+ ")")
       ∧ Query.__conn r = Some k
       ∧ Query.is_composable r = true.
Proof.
  unfold Query.evalable_repr, Query._get_xapian_query.
  intros Hq He Hk Hw Hs.
  unfold Query.norm, Query.get_max_possible_weight. rewrite He, Hk. simpl.
  rewrite Hw. unfold Query.mul, Query.__mul__. rewrite Query__Ok. simpl.
  rewrite merge_params_no_conn by done. simpl.
  rewrite check_composable_Ok by done. simpl. rewrite Hs. simpl.
  destruct (number_eq_1 maxweight); simpl; eexists; (split; [done|]); simpl;
    by split_and!.
Qed.

(** X16: an empty query needs no connection to be normalised: since [0]
    is not positive, [norm] returns the query itself. *)
Theorem norm_empty self (maxweight : number) :
  number_gt_0 number_0 = false → Query.empty self = true →
  norm self maxweight = Ok self.
Proof.
  intros H0 He. unfold Query.norm, Query.get_max_possible_weight.
  rewrite He. simpl. by rewrite H0.
Qed.

(** X17: [merge_with_cached] needs a connection, even on an empty query;
    when it returns, the query was composable and had a text [s], and
    the result is an [OP_OR] composite of text
    [s.merge_with_cached(cached_id)] whose query id is [cached_id]. *)
Theorem merge_with_cached_result self (cached_id : Z) :
  (Query.__conn self = None →
   merge_with_cached self cached_id = Raise NoConnectionError)
  ∧ ∀ r, merge_with_cached self cached_id = Ok r →
         ∃ k s, Query.__conn self = Some k
                ∧ Query.evalable_repr self = Some s
                ∧ Query.is_composable self = true
                ∧ Query.evalable_repr r
                  = Some (s +:+ ".merge_with_cached(" +:+ pretty cached_id
                            +:+ ")")
                ∧ Query._get_queryid r = Some cached_id
                ∧ Query.__op r = Some OP_OR
                ∧ Query.is_composable r = true.
Proof.
  unfold Query.evalable_repr, Query._get_queryid, Query.merge_with_cached.
  split; [by intros ->|].
  intros r. destruct (Query.__conn self) as [k|] eqn:Hk; [|done].
  intros Hr. apply bind_Ok in Hr as (normed & Hnorm & Hr).
  apply bind_Ok in Hr as (res & Hor & Hr).
  apply bind_Ok in Hr as (s' & Hs' & [= <-]).
  destruct (Query.__serialised self) as [s|] eqn:Hs; [|done].
  injection Hs' as <-. unfold Query.__or__ in Hor.
  destruct (compose_Ok OP_OR
              [Some (inr normed);
               Some (SearchConnection_query_cached k cached_id)]
              (inr normed) (SearchConnection_query_cached k cached_id) []
              res eq_refl Hor)
    as (fl & Hcheck & _ & Hop & _ & Hpar & _).
  exists k, s. simpl. split_and!; try done.
  - destruct (Query.is_composable self) eqn:Hq; [done|].
    revert Hnorm. unfold Query.norm.
    destruct (Query.get_max_possible_weight _ self) as [w|]; simpl; [|done].
    destruct (number_gt_0 w).
    + unfold Query.mul. by rewrite mul_not_composable.
    + intros [= <-]. unfold Query.check_queries in Hcheck. simpl in Hcheck.
      by rewrite check_composable_Raise in Hcheck.
  - by apply is_composable_no_params.
Qed.

End further_properties.

(** ** The properties on sample queries *)

Section samples.
Import Sample.
#[local] Existing Instance Sample.externals.

(** C3 at [a], [b], [c] carrying connection 5, none and connection 5. *)
Lemma leaf_composition_texts_sample :
  let a := leaf "a" (Some 5%nat) (Some "A") in
  let c := leaf "c" (Some 5%nat) (Some "C") in
  (∃ r, Query.compose OP_OR [Some (inr a); Some (inr b); Some (inr c)] = Ok r
        ∧ Query.evalable_repr r = Some "Query.compose(Query.OP_OR, (A, B, C))")
  ∧ (∃ r, Query.filter a (inr b) = Ok r
          ∧ Query.evalable_repr r = Some "A.filter(B)")
  ∧ (∃ r, Query.mul a (Query.a_number 2%Q) = Ok r
          ∧ Query.evalable_repr r = Some "(A * 2.0)").
Proof.
  apply (leaf_composition_texts (H := externals) (Term "a") (Term "b") (Term "c")
           None None None (Some 5%nat) None (Some 5%nat)
           None None None None None None 2%Q);
    [reflexivity..| |reflexivity].
  intros k k' Hk Hk'.
  assert (∀ x : nat, Some x ∈ [Some 5%nat; None; Some 5%nat] → x = 5%nat) as H5.
  { intros x Hx. repeat (apply elem_of_cons in Hx as [Hx|Hx]; [congruence|]).
    by apply elem_of_nil in Hx. }
  by rewrite (H5 k Hk), (H5 k' Hk').
Defined.

(** C3 as first stated fails: the text of [compose(OP_OR, [a, b, c])]
    spells [Query.compose] and [Query.OP_OR]. *)
Lemma compose_text_not_bare :
  ∃ r, Query.compose OP_OR [Some (inr a); Some (inr b); Some (inr c)] = Ok r
       ∧ Query.evalable_repr r = Some "Query.compose(Query.OP_OR, (A, B, C))"
       ∧ Query.evalable_repr r ≠ Some "compose(OP_OR, (A, B, C))".
Proof. eexists. split; [reflexivity|]. split; [reflexivity|discriminate]. Qed.

(** C4 at [a.get_facets(('f',))]. *)
Lemma facet_query_refused_sample :
  Query.get_facets a ["f"] None None = Ok a_facets
  ∧ Query.compose OP_OR [Some (inr a_facets); None; Some (inr b)]
    = Raise CompositionError
  ∧ Query.__and__ b (inr a_facets) = Raise CompositionError
  ∧ Query.filter a_facets (inl (Term "t")) = Raise CompositionError
  ∧ Query.adjust b (inr a_facets) = Raise CompositionError
  ∧ Query.__mul__ a_facets (Query.a_number 2%Q) = Raise CompositionError
  ∧ Query.compose OP_AND [None; Some (inr a_facets)]
    = Ok (Query.copy_of a_facets)
  ∧ Query.is_composable (Query.copy_of a_facets) = false.
Proof.
  assert (Query.get_facets a ["f"] None None = Ok a_facets) as Hf
    by reflexivity.
  destruct (facet_query_refused (H := externals) a ["f"] None None a_facets Hf)
    as (Hcompose & Hleft & Hright & Hmul & Hone).
  destruct (Hone OP_AND [None; Some (inr a_facets)] eq_refl)
    as (Hcopy & _ & Hrefused).
  split_and!.
  - exact Hf.
  - apply Hcompose; [left|simpl; lia].
  - apply Hright.
  - apply Hleft.
  - apply Hright.
  - apply Hmul.
  - exact Hcopy.
  - exact Hrefused.
Defined.

(** C4 as first stated fails: [compose] given the facet query alone
    returns a copy of it. *)
Lemma compose_one_facet_query :
  Query.get_facets a ["f"] None None = Ok a_facets
  ∧ Query.compose OP_AND [Some (inr a_facets)] = Ok a_facets
  ∧ Query.compose OP_AND [None; Some (inr a_facets)] = Ok a_facets.
Proof. split_and!; reflexivity. Qed.

(** C5 at [a], which is not empty and carries no connection, and at the
    empty query [Query()], alone and given the connection 5. *)
Lemma norm_without_connection_sample :
  Query.empty a = false ∧ Query.__conn a = None
  ∧ Query.norm max_weight a 1%Q = Raise NoConnectionError
  ∧ Query.empty Query.fresh = true
  ∧ number_gt_0 number_0 = false
  ∧ Query.get_max_possible_weight max_weight Query.fresh = Ok 0%Q
  ∧ Query.get_max_possible_weight max_weight
      (Query.set_conn (Some 5%nat) Query.fresh) = Ok 0%Q
  ∧ Query.norm max_weight Query.fresh 1%Q = Ok Query.fresh.
Proof.
  destruct (norm_without_connection (H := externals) max_weight a 1%Q)
    as [Hraise _].
  destruct (norm_without_connection (H := externals) max_weight
              Query.fresh 1%Q) as [_ Hempty].
  destruct (Hempty eq_refl) as (Hweight & Hany & Hnorm).
  split_and!.
  - reflexivity.
  - reflexivity.
  - apply Hraise; reflexivity.
  - reflexivity.
  - reflexivity.
  - exact Hweight.
  - exact (Hany (Some 5%nat)).
  - apply Hnorm. reflexivity.
Defined.

(** C5 as first stated fails: the empty query carries no connection, and
    [norm] returns it. *)
Lemma norm_empty_without_connection :
  Query.Query_ = Ok Query.fresh
  ∧ Query.__conn Query.fresh = None
  ∧ Query.norm max_weight Query.fresh 1%Q = Ok Query.fresh.
Proof. split_and!; reflexivity. Qed.

(** C6 at [a], [b], [c]. *)
Lemma compose_flattening_sample :
  ∃ inner r,
    Query.compose OP_AND [Some (inr a); Some (inr b)] = Ok inner
    ∧ Query.compose OP_AND [Some (inr inner); Some (inr c)] = Ok r
    ∧ Query.compose OP_AND [Some (inr a); Some (inr b); Some (inr c)] = Ok r
    ∧ Query.__subqs r = Some [inr a; inr b; inr c]
    ∧ Query.evalable_repr r = Some "Query.compose(Query.OP_AND, (A, B, C))".
Proof.
  eexists. eexists.
  assert (Query.compose OP_AND [Some (inr a); Some (inr b)] = Ok _) as Hinner
    by reflexivity.
  destruct (compose_flattening (H := externals) a b c _ Hinner) as [Heq Hr].
  split_and!; [exact Hinner|rewrite Heq|..]; reflexivity.
Defined.

(** C7 at a query of connection 0, which reports the weight 0. *)
Lemma norm_weight_not_positive_sample :
  let q := leaf "a" (Some 0%nat) (Some "A") in
  Query.get_max_possible_weight max_weight q = Ok 0%Q
  ∧ Query.norm max_weight q 1%Q = Ok q.
Proof.
  split; [reflexivity|].
  apply (norm_weight_not_positive (H := externals) max_weight _ 1%Q 0%Q); reflexivity.
Defined.

(** C8 at queries of connections 1 and 2, and of connection 1 and none. *)
Lemma merge_params_connection_sample :
  Query.__merge_params (leaf "a" (Some 1%nat) None) (leaf "b" (Some 2%nat) None)
  = Raise ConnectionMismatchError
  ∧ (∃ r, Query.__merge_params (leaf "a" (Some 1%nat) None) b = Ok r
          ∧ Query.__conn r = Some 1%nat)
  ∧ (∃ r, Query.__merge_params a (leaf "b" (Some 1%nat) None) = Ok r
          ∧ Query.__conn r = Some 1%nat).
Proof.
  split_and!.
  - apply (proj1 (merge_params_connection (H := externals)
                    (leaf "a" (Some 1%nat) None) (leaf "b" (Some 2%nat) None)
                    1%nat) 2%nat); [reflexivity..|lia].
  - apply (proj1 (proj2 (merge_params_connection (H := externals)
                           (leaf "a" (Some 1%nat) None) b 1%nat)));
      reflexivity.
  - apply (proj2 (proj2 (merge_params_connection (H := externals)
                           a (leaf "b" (Some 1%nat) None) 1%nat)));
      reflexivity.
Defined.

(** C9 at a target of ranges [r1, r2] and a source of ranges
    [r2, r3, r3]. *)
Lemma merge_params_ranges_union_sample :
  ∃ r new,
    Query.__merge_params (Query.set_ranges [r1; r2] a)
      (Query.set_ranges [r2; r3; r3] b) = Ok r
    ∧ Query.__ranges r = [r1; r2] ++ new
    ∧ new = [r3]
    ∧ count_occ (decide_rel (=)) (Query.__ranges r) r2 = 1%nat.
Proof.
  destruct (merge_params_ranges_union (H := externals) (Query.set_ranges [r1; r2] a)
              (Query.set_ranges [r2; r3; r3] b))
    as (r & new & Hr & Hranges & _ & _ & _ & Hcount); [discriminate|].
  exists r, new. split_and!; [exact Hr|exact Hranges| |].
  - injection Hr as <-. simpl in Hranges. by injection Hranges.
  - apply Hcount.
    + apply NoDup_cons. split.
      * intros Hin. apply list_elem_of_singleton in Hin. discriminate.
      * apply NoDup_singleton.
    + right. left.
    + left.
Defined.

(** C10 at a composable query of connection 5 without text. *)
Lemma norm_unknown_text_sample :
  let q := leaf "a" (Some 5%nat) None in
  Query.is_composable q = true
  ∧ Query.norm max_weight q 1%Q
    = Raise (TypeError "unsupported operand type(s) for +: 'NoneType' and 'str'").
Proof.
  split; [reflexivity|].
  apply (norm_unknown_text (H := externals) max_weight _ 1%Q 5%nat); reflexivity.
Defined.

(** C10 as first stated fails: a facet query of connection 5 whose text
    was set to [None] is not empty, its connection reports the weight 5,
    and [norm] raises the error of the composability check. *)
Lemma norm_unknown_text_facet_query :
  let q := Query._set_serialised a5_facets None in
  Query.get_facets (leaf "a" (Some 5%nat) (Some "A")) ["f"] None None
  = Ok a5_facets
  ∧ Query.empty q = false
  ∧ Query.__conn q = Some 5%nat
  ∧ number_gt_0 (max_weight 5%nat q) = true
  ∧ Query.evalable_repr q = None
  ∧ Query.norm max_weight q 1%Q = Raise CompositionError.
Proof. split_and!; reflexivity. Qed.

End samples.

(** ** The further properties on sample queries *)

Section further_samples.
Import Sample.
#[local] Existing Instance Sample.externals.

(** Connections that are none or connection 5 are one connection. *)
Ltac one_connection_5 :=
  apply (one_connection_all (H := externals) 5%nat);
  repeat (constructor; [first [by left | by right]|]); constructor.

(** X1 at the target of ranges [r1, r2] and the source of ranges
    [r2, r3, r3]. *)
Lemma merge_params_again_sample :
  ∃ r r',
    Query.__merge_params (Query.set_ranges [r1; r2] a)
      (Query.set_ranges [r2; r3; r3] b) = Ok r
    ∧ Query.__merge_params r (Query.set_ranges [r2; r3; r3] b) = Ok r'
    ∧ Query.__ranges r' = [r1; r2; r3]
    ∧ Query.__conn r' = None.
Proof.
  eexists.
  assert (Query.__merge_params (Query.set_ranges [r1; r2] a)
            (Query.set_ranges [r2; r3; r3] b) = Ok _) as Hr by reflexivity.
  destruct (merge_params_again (H := externals) _ _ _ Hr)
    as (r' & Hr' & Hranges & Hconn).
  exists r'. split_and!; [exact Hr|exact Hr'|exact Hranges|exact Hconn].
Defined.

(** X3 at a query of connection 1 copied to connection 2 and to
    connection 1. *)
Lemma init_copy_connection_sample :
  let q := leaf "a" (Some 1%nat) (Some "A") in
  Query.__init__ (Some (inr q)) None (Some 2%nat) None None None
  = Raise ConnectionMismatchError
  ∧ ∃ c, Query.__init__ (Some (inr q)) None (Some 1%nat) None (Some "B")
           (Some 7%Z) = Ok c
         ∧ Query.__conn c = Some 1%nat
         ∧ Query.evalable_repr c = Some "B"
         ∧ Query._get_queryid c = Some 7%Z.
Proof.
  intros q. split.
  - apply (proj1 (init_copy_connection (H := externals) q None (Some 2%nat)
                    None None None) 2%nat 1%nat); [reflexivity..|lia].
  - destruct (proj2 (init_copy_connection (H := externals) q None
                       (Some 1%nat) None (Some "B") (Some 7%Z)))
      as (c & Hc & Hconn & Htext & _ & Hid).
    + apply (one_connection_all (H := externals) 1%nat).
      repeat (constructor; [by right|]). constructor.
    + exists c. split_and!; [exact Hc|exact Hconn|exact Htext|exact Hid].
Defined.

(** X4 at the composite of a query of connection 5 and ranges
    [r1, r2], of [b], and of a raw engine query. *)
Lemma compose_result_sample :
  let q := Query.set_ranges [r1; r2; r1] (leaf "a" (Some 5%nat) (Some "A")) in
  ∃ r, Query.compose OP_AND [Some (inr q); Some (inr b); Some (inl (Term "t"))]
       = Ok r
       ∧ Query._get_xapian_query r = Multi OP_AND [Term "a"; Term "b"; Term "t"]
       ∧ Query.is_composable r = true
       ∧ Query.__conn r = Some 5%nat
       ∧ NoDup (Query._get_ranges r)
       ∧ r2 ∈ Query._get_ranges r.
Proof.
  intros q. eexists.
  assert (Query.compose OP_AND
            [Some (inr q); Some (inr b); Some (inl (Term "t"))] = Ok _) as Hr
    by reflexivity.
  destruct (compose_result (H := externals) OP_AND
              [Some (inr q); Some (inr b); Some (inl (Term "t"))]
              (inr q) (inr b) [inl (Term "t")] _ eq_refl Hr)
    as (fl & Hfl & _ & _ & Hx & Hcomp & _ & _ & Hnd & Hin & Hconn).
  injection Hfl as <-.
  split_and!; [exact Hr|exact Hx|exact Hcomp| |exact Hnd|].
  - apply Hconn. left.
  - apply Hin. exists (inr q). split; [left|]. right. left.
Defined.

(** X5 at two leaves of connections 1 and 2. *)
Lemma compose_connection_mismatch_sample :
  let q1 := leaf "a" (Some 1%nat) (Some "A") in
  let q2 := leaf "b" (Some 2%nat) (Some "B") in
  Query.__and__ q1 (inr q2) = Raise ConnectionMismatchError.
Proof.
  intros q1 q2.
  apply (compose_connection_mismatch (H := externals) OP_AND
           [Some (inr q1); Some (inr q2)] (inr q1) (inr q2) []
           [inr q1; inr q2] 1%nat 2%nat eq_refl);
    [reflexivity|reflexivity|left|right; left|lia].
Defined.

(** X6 at [compose(OP_XOR, [a, b])] and at [compose(OP_XOR, [None, a])]. *)
Lemma compose_errors_sample :
  Query.compose OP_XOR [Some (inr a); Some (inr b)] = Raise (KeyError OP_XOR)
  ∧ (KeyError OP_XOR = CompositionError
     ∨ KeyError OP_XOR = ConnectionMismatchError
     ∨ KeyError OP_XOR = TypeError "'NoneType' object is not iterable"
     ∨ (KeyError OP_XOR = KeyError OP_XOR
        ∧ OP_XOR ≠ OP_AND ∧ OP_XOR ≠ OP_OR))
  ∧ (length (omap id ([None; Some (inr a)] : list (option Query.operand)))
     ≤ 1)%nat
  ∧ ∃ r, Query.compose OP_XOR [None; Some (inr a)] = Ok r
         ∧ Query.Query_of (inr a) = Ok r.
Proof.
  split; [reflexivity|]. split.
  - apply (compose_errors (H := externals) OP_XOR
             [Some (inr a); Some (inr b)]). reflexivity.
  - split; [simpl; lia|].
    destruct (proj2 (compose_errors (H := externals) OP_XOR
                       [None; Some (inr a)])) as (r & Hr & _ & Hone);
      [simpl; lia|].
    exists r. split; [exact Hr|]. by apply Hone.
Defined.

(** X8 at [a | b]. *)
Lemma compose_pair_text_sample :
  ∃ r, Query.__or__ a (inr b) = Ok r
       ∧ Query.__subqs r = Some [inr a; inr b]
       ∧ Query.evalable_repr r = Some "(A | B)".
Proof.
  apply (compose_pair_text (H := externals) OP_OR a b "A" "B");
    [by right|reflexivity|reflexivity|discriminate|discriminate|
     one_connection_5|reflexivity|reflexivity].
Defined.

(** X9 at [(a | b) & c] and [(a & b) & c]. *)
Lemma compose_nested_text_sample :
  (∃ inner r,
     Query.__or__ a (inr b) = Ok inner
     ∧ Query.__and__ inner (inr c) = Ok r
     ∧ Query.evalable_repr r = Some "((A | B) & C)")
  ∧ (∃ inner r,
       Query.__and__ a (inr b) = Ok inner
       ∧ Query.__and__ inner (inr c) = Ok r
       ∧ Query.evalable_repr r = Some "Query.compose(Query.OP_AND, (A, B, C))").
Proof.
  split.
  - destruct (compose_nested_text (H := externals) OP_AND OP_OR a b c
                "A" "B" "C")
      as (inner & r & sym & sym' & opstr & Hsym & Hsym' & _ & Hinner & Hr
          & _ & Htext);
      [by left|by right|reflexivity..|one_connection_5
      |reflexivity|reflexivity|reflexivity|].
    injection Hsym as <-. injection Hsym' as <-.
    exists inner, r. split_and!; [exact Hinner|exact Hr|exact Htext].
  - destruct (compose_nested_text (H := externals) OP_AND OP_AND a b c
                "A" "B" "C")
      as (inner & r & sym & sym' & opstr & _ & _ & Hopstr & Hinner & Hr
          & _ & Htext);
      [by left|by left|reflexivity..|one_connection_5
      |reflexivity|reflexivity|reflexivity|].
    injection Hopstr as <-.
    exists inner, r. split_and!; [exact Hinner|exact Hr|exact Htext].
Defined.

(** X10 at [compose(OP_XOR, [a, b])]. *)
Lemma compose_other_operator_sample :
  Query.compose OP_XOR [Some (inr a); Some (inr b)] = Raise (KeyError OP_XOR).
Proof.
  apply (compose_other_operator (H := externals) OP_XOR a b "A" "B");
    [discriminate|discriminate|reflexivity|reflexivity|discriminate
    |discriminate|one_connection_5|reflexivity|reflexivity].
Defined.

(** X11 at [a.xor(b)] and [a.and_not(b)], [a] of connection 5. *)
Lemma combine_with_result_sample :
  let a := leaf "a" (Some 5%nat) (Some "A") in
  (∃ r, Query.xor a (inr b) = Ok r
        ∧ Query.evalable_repr r = Some "A.xor(B)"
        ∧ Query._get_xapian_query r = Pair OP_XOR (Term "a") (Term "b")
        ∧ Query.__conn r = Some 5%nat)
  ∧ (∃ r, Query.and_not a (inr b) = Ok r
          ∧ Query.evalable_repr r = Some "A.and_not(B)").
Proof.
  intros a. split.
  - destruct (combine_with_result (H := externals) a b OP_XOR "A" "B" ".xor")
      as (r & Hr & Htext & Hx & _ & _ & Hconn & _);
      [reflexivity..|one_connection_5|reflexivity|reflexivity|].
    exists r. split_and!; [exact Hr|exact Htext|exact Hx|].
    apply Hconn. left.
  - destruct (combine_with_result (H := externals) a b OP_AND_NOT "A" "B"
                ".and_not")
      as (r & Hr & Htext & _);
      [reflexivity..|one_connection_5|reflexivity|reflexivity|].
    exists r. split; [exact Hr|exact Htext].
Defined.

(** X12 at [a * 2.0]. *)
Lemma mul_result_sample :
  ∃ r, Query.__mul__ a (Query.a_number 2%Q) = Ok (Value r)
       ∧ Query._get_xapian_query r = Scale (Term "a") 2%Q
       ∧ Query.evalable_repr r = Some "(A * 2.0)".
Proof.
  destruct (mul_result (H := externals) a 2%Q)
    as ((r & Hr & _ & _ & Hx & Htext & _) & _); [reflexivity|].
  exists r. split_and!; [exact Hr|exact Hx|exact Htext].
Defined.

(** X13 at [a.get_facets(('f', 'g'), None, 3)]. *)
Lemma get_facets_result_sample :
  ∃ r spec,
    Query.get_facets a ["f"; "g"] None (Some 3%Z) = Ok r
    ∧ Query.__search_params r !! "facets" = Some spec
    ∧ invert spec = false
    ∧ fields spec !! "g" = Some (None, Some 3%Z)
    ∧ fields spec !! "h" = None
    ∧ Query.evalable_repr r = Some "A.get_facets(('f', 'g'), None, 3)".
Proof.
  destruct (get_facets_result (H := externals) a ["f"; "g"] None (Some 3%Z)
              "A") as (r & spec & Hr & Hspec & Hinv & Hin & Hout & _ & Htext
                       & _); [reflexivity..|].
  exists r, spec. split_and!; [exact Hr|exact Hspec|exact Hinv| | |exact Htext].
  - apply Hin. right. left.
  - rewrite Hout; [reflexivity|].
    intros Hh. repeat (apply elem_of_cons in Hh as [Hh|Hh]; [discriminate|]).
    by apply elem_of_nil in Hh.
Defined.

(** X14 at a leaf without text. *)
Lemma get_facets_errors_sample :
  Query.get_facets (leaf "a" None None) ["f"] None None
  = Raise (TypeError "sequence item 0: expected str instance, NoneType found").
Proof.
  apply (proj2 (get_facets_errors (H := externals) (leaf "a" None None)
                  ["f"] None None)); reflexivity.
Defined.

(** X15 at a leaf of connection 5, which reports the weight 5. *)
Lemma norm_positive_weight_sample :
  let q := leaf "a" (Some 5%nat) (Some "A") in
  (∃ r, Query.norm max_weight q 1%Q = Ok r
        ∧ Query._get_xapian_query r = Scale (Term "a") (1 / 5)%Q
        ∧ Query.evalable_repr r = Some "A.norm()")
  ∧ (∃ r, Query.norm max_weight q 2%Q = Ok r
          ∧ Query.evalable_repr r = Some "A.norm(2.0)").
Proof.
  intros q. split.
  - destruct (norm_positive_weight (H := externals) max_weight q 1%Q 5%nat "A")
      as (r & Hr & Hx & Htext & _); [reflexivity..|].
    exists r. split_and!; [exact Hr|exact Hx|exact Htext].
  - destruct (norm_positive_weight (H := externals) max_weight q 2%Q 5%nat "A")
      as (r & Hr & _ & Htext & _); [reflexivity..|].
    exists r. split; [exact Hr|exact Htext].
Defined.

(** X16 at the empty query. *)
Lemma norm_empty_sample :
  Query.empty Query.fresh = true
  ∧ Query.norm max_weight Query.fresh 1%Q = Ok Query.fresh.
Proof.
  split; [reflexivity|].
  apply (norm_empty (H := externals) max_weight Query.fresh 1%Q); reflexivity.
Defined.

(** X17 at a leaf of connection 5 merged with the cached results 7. *)
Lemma merge_with_cached_result_sample :
  let q := leaf "a" (Some 5%nat) (Some "A") in
  ∃ r, Query.merge_with_cached max_weight 1%Q query_cached q 7%Z = Ok r
       ∧ Query.evalable_repr r = Some "A.merge_with_cached(7)"
       ∧ Query._get_queryid r = Some 7%Z
       ∧ Query.__op r = Some OP_OR.
Proof.
  intros q. eexists.
  assert (Query.merge_with_cached max_weight 1%Q query_cached q 7%Z = Ok _)
    as Hr by reflexivity.
  destruct (proj2 (merge_with_cached_result (H := externals) max_weight 1%Q
                     query_cached q 7%Z) _ Hr)
    as (k & s & _ & Hs & _ & Htext & Hid & Hop & _).
  injection Hs as <-.
  split_and!; [exact Hr|exact Htext|exact Hid|exact Hop].
Defined.

End further_samples.
